(** * Portfolio API: asset generation and insight calculation

    A shallow embedding of [backend/app/models.py],
    [backend/app/services.py] and the handlers of [backend/app/main.py],
    and the properties of [get_assets], [calculate_insights] and
    [list_insights].

    - Python's [float] is IEEE 754 binary64 with round-to-nearest-even.  It
      is modelled on the standard library's [spec_float]; every operation
      computes the exact rational result and rounds it once.  [Float.add],
      [Float.div] and [Float.leb] are checked against [SFadd], [SFdiv] and
      [SFleb] on examples below.
    - Python's [int] is [Z]; a value that may be either is a [Py.number].
    - The builtin [sum] adds floats from left to right in CPython before
      3.12 and with Neumaier's compensation since.  [Py.sum] is the former,
      [Py.sum_compensated] the latter; [calculate_insights] is written with
      [Py.sum], and [calculate_insights_on] takes the way of adding as a
      parameter.
    - Exceptions are values of [result]: [ZeroDivisionError] and
      [OverflowError] of [/], [IndexError] of indexing.
    - The module [random] is an interface, [Random], of the calls
      [get_assets] makes on the hidden generator state; what the library
      documents for them is assumed where a property needs it.
    - [date.today()] is read once per iteration of [get_assets]; the dates
      read are a parameter of the model. *)

From Stdlib Require Import ZArith QArith Qround Qpower Qabs Lqa Lia.
From Stdlib Require Import List String Ascii Bool DecimalString Permutation.
From Stdlib Require Import Floats.SpecFloat.
Import ListNotations.

Local Open Scope Z_scope.

(** ** Binary64 *)

Module Float.

Definition prec : Z := 53.
Definition emax : Z := 1024.

Definition float := spec_float.

(** The binary64 numbers among the values of [spec_float]. *)
Definition valid (x : float) : bool := valid_binary prec emax x.

Definition pos_zero : float := S754_zero false.

(** The rational a finite float denotes (0 for the others). *)
Definition F2Q (x : float) : Q :=
  match x with
  | S754_finite s m e =>
      ((if s then -1 else 1) * inject_Z (Zpos m) * 2 ^ e)%Q
  | _ => 0%Q
  end.

(** [floor (log2 q)] for a positive rational. *)
Definition Qlog2 (q : Q) : Z :=
  let k := Z.log2 (Qnum q) - Z.log2 (Zpos (Qden q)) in
  if Qle_bool (2 ^ k) q then k else k - 1.

(** Nearest integer, ties to the even one. *)
Definition round_half_even (q : Q) : Z :=
  let f := Qfloor q in
  match (q - inject_Z f ?= 1 # 2)%Q with
  | Lt => f
  | Gt => f + 1
  | Eq => if Z.even f then f else f + 1
  end.

(** Mantissa and exponent to a float: a mantissa of [2^prec] is renormalised,
    an exponent above the format's largest is an overflow. *)
Definition pack (s : bool) (m e : Z) : float :=
  match m with
  | Zpos p =>
      let '(p', e') :=
        if m =? 2 ^ prec then (Pos.pow 2 52, e + 1) else (p, e) in
      if e' >? emax - prec then S754_infinity s else S754_finite s p' e'
  | _ => S754_zero s
  end.

(** Exponent and mantissa of the binary64 nearest to a positive rational:
    53 significant bits, or fewer at the smallest exponent. *)
Definition exponent (q : Q) : Z := fexp prec emax (Qlog2 q + 1).

Definition mantissa (q : Q) : Z := round_half_even (q * 2 ^ (- exponent q)).

(** Round a positive rational to the nearest binary64 of sign [s]. *)
Definition round_pos (s : bool) (q : Q) : float :=
  pack s (mantissa q) (exponent q).

(** Round any rational; [sz] is the sign given to an exact zero. *)
Definition round_Q (sz : bool) (q : Q) : float :=
  match (q ?= 0)%Q with
  | Eq => S754_zero sz
  | Gt => round_pos false q
  | Lt => round_pos true (- q)
  end.

Definition is_nan (x : float) : bool :=
  match x with S754_nan => true | _ => false end.

Definition is_zero (x : float) : bool :=
  match x with S754_zero _ => true | _ => false end.

Definition is_finite (x : float) : bool :=
  match x with S754_zero _ | S754_finite _ _ _ => true | _ => false end.

(** [x + y]. *)
Definition add (x y : float) : float :=
  match x, y with
  | S754_nan, _ | _, S754_nan => S754_nan
  | S754_infinity sx, S754_infinity sy =>
      if Bool.eqb sx sy then x else S754_nan
  | S754_infinity _, _ => x
  | _, S754_infinity _ => y
  | S754_zero sx, S754_zero sy =>
      if Bool.eqb sx sy then x else S754_zero false
  | S754_zero _, _ => y
  | _, S754_zero _ => x
  | S754_finite _ _ _, S754_finite _ _ _ =>
      round_Q false (F2Q x + F2Q y)
  end.

(** [x / y] of IEEE 754 (Python raises before dividing by a zero). *)
Definition div (x y : float) : float :=
  match x, y with
  | S754_nan, _ | _, S754_nan => S754_nan
  | S754_infinity _, S754_infinity _ => S754_nan
  | S754_zero _, S754_zero _ => S754_nan
  | S754_infinity sx, (S754_finite sy _ _ | S754_zero sy) =>
      S754_infinity (xorb sx sy)
  | S754_finite sx _ _, S754_zero sy => S754_infinity (xorb sx sy)
  | (S754_finite sx _ _ | S754_zero sx), S754_infinity sy =>
      S754_zero (xorb sx sy)
  | S754_zero sx, S754_finite sy _ _ => S754_zero (xorb sx sy)
  | S754_finite sx mx ex, S754_finite sy my ey =>
      round_pos (xorb sx sy) (Qabs (F2Q x) / Qabs (F2Q y))
  end.

(** Comparison by value; a NaN compares with nothing. *)
Definition compare (x y : float) : option comparison :=
  match x, y with
  | S754_nan, _ | _, S754_nan => None
  | S754_infinity sx, S754_infinity sy =>
      Some match sx, sy with
           | true, false => Lt
           | false, true => Gt
           | _, _ => Eq
           end
  | S754_infinity s, _ => Some (if s then Lt else Gt)
  | _, S754_infinity s => Some (if s then Gt else Lt)
  | _, _ => Some (F2Q x ?= F2Q y)%Q
  end.

Definition leb (x y : float) : bool :=
  match compare x y with Some (Lt | Eq) => true | _ => false end.

Definition ltb (x y : float) : bool :=
  match compare x y with Some Lt => true | _ => false end.

(** [float(n)] for an integer in the range of the format. *)
Definition of_Z (n : Z) : float := round_Q false (inject_Z n).

(** The float a decimal literal [n / 10^d] denotes. *)
Definition of_decimal (n : Z) (d : Z) : float :=
  round_Q false (inject_Z n / 10 ^ d).

(** [round(x, ndigits)]: the exact value is rounded to [ndigits] decimals,
    ties to even, and the decimal is read back as a float.  CPython raises
    [OverflowError] when reading back overflows; [round_finite] below shows
    that this cannot happen for [ndigits >= 0]. *)
Definition round (x : float) (ndigits : Z) : float :=
  match x with
  | S754_finite s m e =>
      if ndigits >? 323 then x
      else if ndigits <? -308 then S754_zero s
      else round_Q s (inject_Z (round_half_even (F2Q x * 10 ^ ndigits))
                      / 10 ^ ndigits)
  | _ => x
  end.

(** The value rounding aims at, before the largest exponent is enforced. *)
Definition rnd_pos (q : Q) : Q := (inject_Z (mantissa q) * 2 ^ exponent q)%Q.

Definition rnd (q : Q) : Q :=
  match (q ?= 0)%Q with
  | Eq => 0%Q
  | Gt => rnd_pos q
  | Lt => (- rnd_pos (- q))%Q
  end.

(** [repr x v]: the float [x] stands for the rational [v], an infinity for
    every value beyond the range of the format. *)
Definition repr (x : float) (v : Q) : Prop :=
  (x = S754_infinity false /\ (2 ^ emax <= v)%Q) \/
  (x = S754_infinity true /\ (v <= - 2 ^ emax)%Q) \/
  (is_finite x = true /\ (F2Q x == v)%Q /\ (- 2 ^ emax < v < 2 ^ emax)%Q).

Definition sgn (s : bool) (v : Q) : Q := if s then (- v)%Q else v.

(** Values that order the floats: an infinity sits at the first power of
    two out of range. *)
Definition xval (x : float) : Q :=
  match x with
  | S754_infinity s => sgn s (2 ^ emax)
  | _ => F2Q x
  end.

(** The decimal with [ndigits] fractional digits nearest to [v]. *)
Definition decimal (ndigits : Z) (v : Q) : Q :=
  (inject_Z (round_half_even (v * 10 ^ ndigits)) / 10 ^ ndigits)%Q.

(** A binary64 number [x] with [x >= 0]. *)
Definition nonneg (x : float) : Prop :=
  valid x = true /\ leb pos_zero x = true.

(** [0 <= x <= 1]. *)
Definition in_unit_interval (x : float) : bool :=
  leb (of_Z 0) x && leb x (of_Z 1).

(** The largest binary64 number. *)
Definition max_float : Z := (2 ^ 53 - 1) * 2 ^ 971.

(** [- x], [x - y] and [fabs(x)]. *)
Definition neg (x : float) : float :=
  match x with
  | S754_zero s => S754_zero (negb s)
  | S754_infinity s => S754_infinity (negb s)
  | S754_nan => S754_nan
  | S754_finite s m e => S754_finite (negb s) m e
  end.

Definition sub (x y : float) : float := add x (neg y).

Definition fabs (x : float) : float :=
  match x with
  | S754_zero _ => S754_zero false
  | S754_infinity _ => S754_infinity false
  | S754_nan => S754_nan
  | S754_finite _ m e => S754_finite false m e
  end.

(** Equality of representations, and floats of every kind (zeros,
    infinities, NaN, subnormal, huge, inexact) on which the operations are
    compared with the standard library's. *)
Definition eqb (x y : float) : bool :=
  match x, y with
  | S754_zero s, S754_zero s' | S754_infinity s, S754_infinity s' =>
      Bool.eqb s s'
  | S754_nan, S754_nan => true
  | S754_finite s m e, S754_finite s' m' e' =>
      Bool.eqb s s' && Pos.eqb m m' && Z.eqb e e'
  | _, _ => false
  end.

Definition samples : list float :=
  [ S754_zero false; S754_zero true; S754_infinity false;
    S754_infinity true; S754_nan;
    of_Z 1; of_Z (-3); of_Z 1000; of_Z 50000; of_Z (2 ^ 53 + 2);
    of_decimal 1 1; of_decimal (-2) 1; of_decimal 3333 4;
    of_decimal 2675 3; of_decimal 4999999 2;
    of_decimal 1 (-308); of_decimal (-17) (-307);
    of_decimal 5 324; of_decimal (-3) 310; of_decimal 22250738585072014 324;
    S754_finite false (2 ^ 53 - 1) 971 ].

End Float.

(** ** Python values and exceptions *)

Inductive exn := ZeroDivisionError | OverflowError | IndexError.

Inductive result (A : Type) : Type :=
| Ok (a : A)
| Raise (e : exn).
Arguments Ok {A} a.
Arguments Raise {A} e.

Definition bind {A B} (c : result A) (k : A -> result B) : result B :=
  match c with
  | Ok a => k a
  | Raise e => Raise e
  end.

Notation "x <- c ;; k" := (bind c (fun x => k))
  (at level 61, c at next level, right associativity).

Module Py.

Import Float.

(** The numbers of the program: [int] and [float]. *)
Inductive number :=
| PyInt (n : Z)
| PyFloat (x : float).

(** Conversion of an operand to [float], as mixed arithmetic and the
    [float] fields of the models do.  Integers beyond the range of the
    format (where Python raises [OverflowError]) do not occur: the integers
    of this program are 0 and list lengths. *)
Definition to_float (v : number) : float :=
  match v with
  | PyInt n => of_Z n
  | PyFloat x => x
  end.

(** [a + b]. *)
Definition add (a b : number) : number :=
  match a, b with
  | PyInt m, PyInt n => PyInt (m + n)
  | _, _ => PyFloat (Float.add (to_float a) (to_float b))
  end.

(** [sum(items)]: from the integer 0, left to right, every partial sum a
    Python number of its own (the sum the language reference defines, and
    what CPython before 3.12 computes; [sum_compensated] below is the sum
    of CPython 3.12 and later, which can differ from it in the last
    bit). *)
Definition sum (items : list number) : number :=
  fold_left add items (PyInt 0).

(** [sum(items)] as CPython 3.12 and later compute it.  Integers are added
    as integers up to the first float; from there the partial sum [f] is a
    C double and a second double [c] collects what each addition rounded
    away (Neumaier's compensated sum):
    [t = f + x; c += (f - t) + x if fabs(f) >= fabs(x) else (x - t) + f;
    f = t], and [f + c] is returned at the end when [c] is non-zero and
    finite.  An integer met after the first float is converted and added to
    [f] alone; the sums of this program are sums of floats. *)
Definition compensated_add (acc : float * float) (x : float)
  : float * float :=
  let '(f, c) := acc in
  let t := Float.add f x in
  let lost := if leb (fabs x) (fabs f)
              then Float.add (sub f t) x
              else Float.add (sub x t) f in
  (t, Float.add c lost).

Definition compensated_total (acc : float * float) : float :=
  let '(f, c) := acc in
  if negb (is_zero c) && is_finite c then Float.add f c else f.

Fixpoint sum_floats (items : list number) (acc : float * float) : number :=
  match items with
  | [] => PyFloat (compensated_total acc)
  | PyFloat x :: rest => sum_floats rest (compensated_add acc x)
  | PyInt n :: rest => sum_floats rest (Float.add (fst acc) (of_Z n), snd acc)
  end.

Fixpoint sum_ints (items : list number) (i : Z) : number :=
  match items with
  | [] => PyInt i
  | PyInt n :: rest => sum_ints rest (i + n)
  | PyFloat x :: rest => sum_floats rest (Float.add (of_Z i) x, pos_zero)
  end.

Definition sum_compensated (items : list number) : number :=
  sum_ints items 0.

(** The two ways the interpreters add floats in [sum]: left to right
    (CPython before 3.12) and compensated (CPython 3.12 and later). *)
Inductive summation := left_to_right | compensated.

Definition sum_by (alg : summation) (items : list number) : number :=
  match alg with
  | left_to_right => sum items
  | compensated => sum_compensated items
  end.

(** [bool(v)]. *)
Definition truthy (v : number) : bool :=
  match v with
  | PyInt n => negb (n =? 0)
  | PyFloat x => negb (is_zero x)
  end.

(** [a / b]: the correctly rounded quotient of two integers, the IEEE
    quotient otherwise; a zero divisor raises. *)
Definition truediv (a b : number) : result number :=
  match a, b with
  | PyInt m, PyInt n =>
      if n =? 0 then Raise ZeroDivisionError
      else match round_Q (xorb (m <? 0) (n <? 0))
                         (inject_Z m / inject_Z n) with
           | S754_infinity _ => Raise OverflowError
           | q => Ok (PyFloat q)
           end
  | _, _ =>
      if is_zero (to_float b) then Raise ZeroDivisionError
      else Ok (PyFloat (Float.div (to_float a) (to_float b)))
  end.

(** [round(v, ndigits)]. *)
Definition round (v : number) (ndigits : Z) : number :=
  match v with
  | PyInt n =>
      if 0 <=? ndigits then PyInt n
      else PyInt (round_half_even (inject_Z n / 10 ^ (- ndigits))
                  * 10 ^ (- ndigits))
  | PyFloat x => PyFloat (Float.round x ndigits)
  end.

(** [len(l)]. *)
Definition len {A} (l : list A) : number := PyInt (Z.of_nat (List.length l)).

(** [l[i]] for a non-negative index. *)
Definition index {A} (l : list A) (i : nat) : result A :=
  match nth_error l i with
  | Some x => Ok x
  | None => Raise IndexError
  end.

(** [f"{n:03d}"]: the sign, then the decimal digits padded with zeros on
    the left to a total width of 3. *)
Definition format_03d (n : Z) : string :=
  let digits := NilZero.string_of_uint (N.to_uint (Z.abs_N n)) in
  let sign := if n <? 0 then "-"%string else ""%string in
  let pad := (3 - String.length sign - String.length digits)%nat in
  (sign ++ String.concat "" (repeat "0" pad) ++ digits)%string.

End Py.

(** ** app/models.py *)

(** [Literal["active", "defaulted", "paid"]]. *)
Inductive Status := active | defaulted | paid.

Definition Status_eqb (a b : Status) : bool :=
  match a, b with
  | active, active | defaulted, defaulted | paid, paid => true
  | _, _ => false
  end.

(** A [datetime.date] is its proleptic Gregorian ordinal; adding a
    [timedelta(days=n)] adds [n].  [date.today()] is the host's current
    date, months away from [date.min] and [date.max]. *)
Definition date := Z.

Record Asset := mkAsset {
  id : string;
  nominal_value : Float.float;
  status : Status;
  due_date : date
}.

(** The fields [id], [name] and [value] of [Insight]. *)
Record Insight := mkInsight {
  insight_id : string;
  name : string;
  value : Float.float
}.

(** ** app/services.py *)

(** The module-level generator of Python's [random], as the calls
    [get_assets] makes see it: each call reads and replaces the hidden
    state. *)
Record Random := {
  rng : Type;
  seed : Z -> rng -> rng;
  choices : forall A : Type, list A -> list Float.float -> rng -> list A * rng;
  randint : Z -> Z -> rng -> Z * rng;
  uniform : Z -> Z -> rng -> Float.float * rng
}.
Arguments choices r {A} _ _ _.

(** What the library documents for these calls. *)
Definition seed_resets (R : Random) : Prop :=
  forall a s s', seed R a s = seed R a s'.

Definition choices_draws (R : Random) : Prop :=
  forall (A : Type) (population : list A) weights s,
    population <> [] -> List.length weights = List.length population ->
    exists x, fst (choices R population weights s) = [x] /\ In x population.

Definition randint_range (R : Random) : Prop :=
  forall a b s, a <= b -> a <= fst (randint R a b s) <= b.

Definition uniform_range (R : Random) : Prop :=
  forall a b s, a <= b ->
    Float.leb (Float.of_Z a) (fst (uniform R a b s)) = true /\
    Float.leb (fst (uniform R a b s)) (Float.of_Z b) = true.

Section Services.

Variable R : Random.

(** [clock i] is what [date.today()] returns in iteration [i] of a call. *)
Variable clock : nat -> date.

Definition statuses : list Status := [active; defaulted; paid].

Definition weights : list Float.float :=
  [Float.of_decimal 6 1; Float.of_decimal 2 1; Float.of_decimal 2 1].

(** One iteration of [for i in range(20)]. *)
Definition generate_asset (acc : list Asset * rng R) (i : nat)
  : result (list Asset * rng R) :=
  let '(assets, st) := acc in
  let '(picked, st) := choices R statuses weights st in
  status <- Py.index picked 0 ;;
  let '(days, st) := randint R (-90) 180 st in
  let due_date := clock i + days in
  let '(u, st) := uniform R 1000 50000 st in
  Ok (assets ++ [mkAsset ("asset-" ++ Py.format_03d (Z.of_nat i + 1))
                         (Float.round u 2) status due_date], st).

(** A [for] loop over [l] that threads the state [s] through [body] and
    stops at the first exception. *)
Fixpoint for_each {A S} (body : S -> A -> result S) (l : list A) (s : S)
  : result S :=
  match l with
  | [] => Ok s
  | x :: l' => s' <- body s x ;; for_each body l' s'
  end.

(** [get_assets()], from the generator state it finds to the list it
    returns and the state it leaves. *)
Definition get_assets (st : rng R) : result (list Asset * rng R) :=
  let st := seed R 42 st in
  for_each generate_asset (seq 0 20) ([], st).

End Services.

(** What iteration [i] of [get_assets] appends: an asset and the draws
    behind its fields. *)
Definition drawn (R : Random) (clock : nat -> date) (i : nat) (a : Asset)
  : Prop :=
  id a = ("asset-" ++ Py.format_03d (Z.of_nat i + 1))%string /\
  In (status a) statuses /\
  (exists st, due_date a = clock i + fst (randint R (-90) 180 st)) /\
  (exists st, nominal_value a = Float.round (fst (uniform R 1000 50000 st)) 2).

(** [(a.nominal_value for a in assets)]. *)
Definition values (assets : list Asset) : list Py.number :=
  map (fun a => Py.PyFloat (nominal_value a)) assets.

(** [[a for a in assets if a.status == s]]. *)
Definition with_status (s : Status) (assets : list Asset) : list Asset :=
  filter (fun a => Status_eqb (status a) s) assets.

(** [calculate_insights(assets)]; the [value] of an [Insight] is a [float]
    field, which converts the integers 0 of the guarded branches. *)
Definition calculate_insights (assets : list Asset) : result (list Insight) :=
  let total_value := Py.sum (values assets) in
  let active_assets := with_status active assets in
  let defaulted_assets := with_status defaulted assets in
  let paid_assets := with_status paid assets in
  default_rate <-
    match assets with
    | _ :: _ => Py.truediv (Py.len defaulted_assets) (Py.len assets)
    | [] => Ok (Py.PyInt 0)
    end ;;
  let outstanding_debt := Py.sum (values active_assets) in
  collection_rate <-
    (if Py.truthy total_value
     then Py.truediv (Py.sum (values paid_assets)) total_value
     else Ok (Py.PyInt 0)) ;;
  Ok [ mkInsight "insight-001" "total_portfolio_value"
         (Py.to_float (Py.round total_value 2));
       mkInsight "insight-002" "default_rate"
         (Py.to_float (Py.round default_rate 4));
       mkInsight "insight-003" "outstanding_debt"
         (Py.to_float (Py.round outstanding_debt 2));
       mkInsight "insight-004" "collection_rate"
         (Py.to_float (Py.round collection_rate 4)) ].

(** The list [calculate_insights] returns, given the four values. *)
Definition insights (total_portfolio_value default_rate outstanding_debt
                     collection_rate : Float.float) : list Insight :=
  [ mkInsight "insight-001" "total_portfolio_value" total_portfolio_value;
    mkInsight "insight-002" "default_rate" default_rate;
    mkInsight "insight-003" "outstanding_debt" outstanding_debt;
    mkInsight "insight-004" "collection_rate" collection_rate ].

(** The values of [default_rate] and [collection_rate], read off the two
    guarded divisions. *)
Definition default_rate_of (assets : list Asset) : Float.float :=
  match assets with
  | [] => Float.of_Z 0
  | _ :: _ =>
      Float.round
        (Float.round_Q false
           (inject_Z (Z.of_nat (List.length (with_status defaulted assets)))
            / inject_Z (Z.of_nat (List.length assets)))) 4
  end.

Definition collection_rate_of (assets : list Asset) : Float.float :=
  let total_value := Py.sum (values assets) in
  if Py.truthy total_value
  then Float.round
         (Float.div (Py.to_float (Py.sum (values (with_status paid assets))))
                    (Py.to_float total_value)) 4
  else Float.of_Z 0.

(** [calculate_insights(assets)] on an interpreter whose [sum] adds floats
    the way [alg] says; [calculate_insights] above is
    [calculate_insights_on Py.left_to_right]. *)
Definition calculate_insights_on (alg : Py.summation) (assets : list Asset)
  : result (list Insight) :=
  let total_value := Py.sum_by alg (values assets) in
  let active_assets := with_status active assets in
  let defaulted_assets := with_status defaulted assets in
  let paid_assets := with_status paid assets in
  default_rate <-
    match assets with
    | _ :: _ => Py.truediv (Py.len defaulted_assets) (Py.len assets)
    | [] => Ok (Py.PyInt 0)
    end ;;
  let outstanding_debt := Py.sum_by alg (values active_assets) in
  collection_rate <-
    (if Py.truthy total_value
     then Py.truediv (Py.sum_by alg (values paid_assets)) total_value
     else Ok (Py.PyInt 0)) ;;
  Ok [ mkInsight "insight-001" "total_portfolio_value"
         (Py.to_float (Py.round total_value 2));
       mkInsight "insight-002" "default_rate"
         (Py.to_float (Py.round default_rate 4));
       mkInsight "insight-003" "outstanding_debt"
         (Py.to_float (Py.round outstanding_debt 2));
       mkInsight "insight-004" "collection_rate"
         (Py.to_float (Py.round collection_rate 4)) ].

(** The value of [collection_rate] on such an interpreter. *)
Definition collection_rate_on (alg : Py.summation) (assets : list Asset)
  : Float.float :=
  let total_value := Py.sum_by alg (values assets) in
  if Py.truthy total_value
  then Float.round
         (Float.div
            (Py.to_float (Py.sum_by alg (values (with_status paid assets))))
            (Py.to_float total_value)) 4
  else Float.of_Z 0.

(** ** The formulas of the specification *)

(** "sum of nominal_value over all assets, rounded to 2 decimals". *)
Definition spec_total_portfolio_value (assets : list Asset) : Py.number :=
  Py.round (Py.sum (values assets)) 2.

(** "sum of nominal_value over active assets, rounded to 2 decimals". *)
Definition spec_outstanding_debt (assets : list Asset) : Py.number :=
  Py.round (Py.sum (values (with_status active assets))) 2.

(** "sum of nominal_value over paid assets divided by the un-rounded total
    portfolio value, rounded to 4 decimals". *)
Definition spec_collection_rate (assets : list Asset) : result Py.number :=
  q <- Py.truediv (Py.sum (values (with_status paid assets)))
                  (Py.sum (values assets)) ;;
  Ok (Py.round q 4).

(** The three values are the three formulas. *)
Definition computed_as_specified (assets : list Asset) : Prop :=
  exists default_rate collection_rate,
    spec_collection_rate assets = Ok collection_rate /\
    calculate_insights assets =
      Ok (insights (Py.to_float (spec_total_portfolio_value assets))
                   default_rate
                   (Py.to_float (spec_outstanding_debt assets))
                   (Py.to_float collection_rate)).



(** Two assets that differ at most in [id] and [due_date]. *)
Definition same_value_and_status (a b : Asset) : Prop :=
  nominal_value a = nominal_value b /\ status a = status b.

(** ** A small generator behind the [Random] interface *)

Definition lcg (s : Z) : Z := (1103515245 * s + 12345) mod 2 ^ 31.

Definition toy_random : Random := {|
  rng := Z;
  seed := fun a _ => a;
  choices := fun A population _ s =>
    (match nth_error population
             (Z.to_nat (s mod Z.of_nat (List.length population))) with
     | Some x => [x]
     | None => []
     end, lcg s);
  randint := fun a b s => (a + s mod (b - a + 1), lcg s);
  uniform := fun a b s => (Float.of_Z (a + s mod (b - a + 1)), lcg s)
|}.

(** The inputs of the scenarios. *)
Definition scenario (idA idB idC : string) (dA dB dC : date) : list Asset :=
  [ mkAsset idA (Float.of_Z 1000) active dA;
    mkAsset idB (Float.of_Z 2000) defaulted dB;
    mkAsset idC (Float.of_Z 3000) paid dC ].





(** ** app/main.py *)

(** The fields [status] and [version] of [HealthResponse]. *)
Record HealthResponse := mkHealthResponse {
  health_status : string;
  version : string
}.

Definition health_check : HealthResponse :=
  mkHealthResponse "healthy" "1.0.0".

(** The handlers of [/assets] and [/insights], on the generator state the
    request finds. *)
Definition list_assets (R : Random) (clock : nat -> date) (st : rng R)
  : result (list Asset * rng R) :=
  get_assets R clock st.

Definition list_insights (R : Random) (clock : nat -> date) (st : rng R)
  : result (list Insight * rng R) :=
  r <- get_assets R clock st ;;
  served <- calculate_insights (fst r) ;;
  Ok (served, snd r).

(** ** Vocabulary of the further properties *)

(** A binary64 number between the integers [lo] and [hi]. *)
Definition in_range (lo hi : Z) (x : Float.float) : Prop :=
  Float.valid x = true /\
  Float.leb (Float.of_Z lo) x = true /\ Float.leb x (Float.of_Z hi) = true.

(** The same asset generated [d] days later. *)
Definition shifted (d : Z) (a b : Asset) : Prop :=
  id b = id a /\ nominal_value b = nominal_value a /\ status b = status a /\
  due_date b = due_date a + d.

(** What two runs of an iteration under two clocks produce. *)
Definition same_draws (c1 c2 : nat -> date) (i : nat) (a b : Asset) : Prop :=
  id b = id a /\ nominal_value b = nominal_value a /\ status b = status a /\
  due_date b - c2 i = due_date a - c1 i.

(** Two runs from the same state: both raise the same exception, or both
    return, in the same state, lists related by [Q]. *)
Definition runs_agree {S : Type} (Q : Asset -> Asset -> Prop)
           (r1 r2 : result (list Asset * S)) : Prop :=
  match r1, r2 with
  | Ok (l1, s1), Ok (l2, s2) => Forall2 Q l1 l2 /\ s1 = s2
  | Raise e1, Raise e2 => e1 = e2
  | _, _ => False
  end.

(** ** Vocabulary of the bounds on sums *)

(** The sum of the values of a list of floats, as a rational. *)
Definition exact_sum (l : list Float.float) : Q :=
  fold_right (fun x s => (Float.F2Q x + s)%Q) 0%Q l.

(** Half the spacing of the binary64 numbers between 2^20 and 2^21: the
    most an addition rounds away below 2^21. *)
Definition eps : Q := 1 # 4294967296.

(** [x] is a binary64 number within [e] of the rational [v]. *)
Definition approx (x : Float.float) (v e : Q) : Prop :=
  Float.valid x = true /\ Float.is_finite x = true /\
  (v - e <= Float.F2Q x <= v + e)%Q.

(** A non-negative binary64 number. *)
Definition amount (x : Float.float) : Prop :=
  Float.valid x = true /\ Float.is_finite x = true /\ (0 <= Float.F2Q x)%Q.

(** ** Facts on binary64 rounding *)

Module FloatFacts.

Import Float.

(** Powers of two. *)

Lemma pow2_pos (e : Z) : (0 < 2 ^ e)%Q.
Proof. apply Qpower_0_lt. reflexivity. Qed.

Lemma pow2_add (a b : Z) : (2 ^ (a + b) == 2 ^ a * 2 ^ b)%Q.
Proof. apply Qpower_plus. discriminate. Qed.

Lemma pow2_le (a b : Z) : a <= b -> (2 ^ a <= 2 ^ b)%Q.
Proof. intros H. apply Qpower_le_compat_l; [exact H | discriminate]. Qed.

Lemma pow2_lt (a b : Z) : a < b -> (2 ^ a < 2 ^ b)%Q.
Proof. intros H. apply Qpower_lt_compat_l; [exact H | reflexivity]. Qed.

Lemma pow2_lt_inv (a b : Z) : (2 ^ a < 2 ^ b)%Q -> a < b.
Proof.
  intros H.
  apply Qpower_lt_compat_l_inv with (q := 2%Q); [exact H | reflexivity].
Qed.

Lemma pow2_inject (n : Z) : 0 <= n -> (inject_Z (2 ^ n) == 2 ^ n)%Q.
Proof. intros H. apply (Zpower_Qpower 2 n H). Qed.

Lemma pow2_cancel (e : Z) : (2 ^ (- e) * 2 ^ e == 1)%Q.
Proof. rewrite <- pow2_add. replace (- e + e) with 0 by ring. reflexivity. Qed.

(** Rounding to the nearest integer. *)

Lemma round_half_even_comp (q q' : Q) :
  (q == q')%Q -> round_half_even q = round_half_even q'.
Proof.
  intros H. unfold round_half_even.
  assert (Hf : Qfloor q = Qfloor q') by (rewrite H; reflexivity).
  rewrite Hf.
  assert (Hc : (q - inject_Z (Qfloor q') ?= 1 # 2)%Q
               = (q' - inject_Z (Qfloor q') ?= 1 # 2)%Q)
    by (rewrite H; reflexivity).
  rewrite Hc. reflexivity.
Qed.

Lemma round_half_even_Z (n : Z) : round_half_even (inject_Z n) = n.
Proof.
  unfold round_half_even. rewrite Qfloor_Z.
  assert (H : (inject_Z n - inject_Z n ?= 1 # 2)%Q = Lt).
  { rewrite <- Qlt_alt. lra. }
  rewrite H. reflexivity.
Qed.

Lemma round_half_even_bounds (q : Q) :
  Qfloor q <= round_half_even q <= Qfloor q + 1.
Proof.
  unfold round_half_even.
  destruct (q - inject_Z (Qfloor q) ?= 1 # 2)%Q; try lia.
  destruct (Z.even (Qfloor q)); lia.
Qed.

Lemma round_half_even_mono (q q' : Q) :
  (q <= q')%Q -> round_half_even q <= round_half_even q'.
Proof.
  intros H.
  pose proof (Qfloor_resp_le _ _ H) as Hf.
  destruct (Z.eq_dec (Qfloor q) (Qfloor q')) as [E | NE].
  - unfold round_half_even. rewrite <- E.
    destruct (q - inject_Z (Qfloor q) ?= 1 # 2)%Q eqn:C;
      destruct (q' - inject_Z (Qfloor q) ?= 1 # 2)%Q eqn:C';
      try rewrite <- Qeq_alt in *; try rewrite <- Qlt_alt in *;
      try rewrite <- Qgt_alt in *;
      try (destruct (Z.even (Qfloor q))); try lia; exfalso; lra.
  - pose proof (round_half_even_bounds q).
    pose proof (round_half_even_bounds q'). lia.
Qed.

Lemma round_half_even_le_Z (q : Q) (n : Z) :
  (q <= inject_Z n)%Q -> round_half_even q <= n.
Proof.
  intros H. rewrite <- (round_half_even_Z n).
  now apply round_half_even_mono.
Qed.

Lemma round_half_even_ge_Z (q : Q) (n : Z) :
  (inject_Z n <= q)%Q -> n <= round_half_even q.
Proof.
  intros H. rewrite <- (round_half_even_Z n) at 1.
  now apply round_half_even_mono.
Qed.

(** The binary logarithm. *)

Lemma Zlog2_Q (n : Z) :
  0 < n -> (2 ^ Z.log2 n <= inject_Z n < 2 ^ (Z.log2 n + 1))%Q.
Proof.
  intros H. destruct (Z.log2_spec n H) as [L U].
  pose proof (Z.log2_nonneg n) as Hn.
  rewrite <- !pow2_inject by lia.
  rewrite <- Zle_Qle, <- Zlt_Qlt.
  replace (Z.log2 n + 1) with (Z.succ (Z.log2 n)) by lia.
  split; assumption.
Qed.

Lemma Qlog2_spec (q : Q) :
  (0 < q)%Q -> (2 ^ Qlog2 q <= q < 2 ^ (Qlog2 q + 1))%Q.
Proof.
  intros Hq. destruct q as [n d]. unfold Qlog2. cbn [Qnum Qden].
  assert (Hn : 0 < n).
  { unfold Qlt in Hq. cbn in Hq. lia. }
  set (k := Z.log2 n - Z.log2 (Zpos d)).
  destruct (Zlog2_Q n Hn) as [Ln Un].
  destruct (Zlog2_Q (Zpos d) eq_refl) as [Ld Ud].
  assert (Hv : (n # d == inject_Z n / inject_Z (Zpos d))%Q) by apply Qmake_Qdiv.
  assert (Hd : (0 < inject_Z (Zpos d))%Q) by (rewrite <- (Zlt_Qlt 0); lia).
  assert (Hqd : (inject_Z n == (n # d) * inject_Z (Zpos d))%Q).
  { rewrite Hv. field. lra. }
  assert (E2 : (2 ^ (Z.log2 n + 1) == 2 ^ (k + 1) * 2 ^ Z.log2 (Zpos d))%Q).
  { rewrite <- pow2_add. unfold k.
    now replace (Z.log2 n - Z.log2 (Zpos d) + 1 + Z.log2 (Zpos d))
      with (Z.log2 n + 1) by ring. }
  destruct (Qle_bool (2 ^ k) (n # d)) eqn:B.
  - apply Qle_bool_iff in B. split; [exact B |].
    apply Qnot_le_lt. intros C.
    assert (H1 : (2 ^ (k + 1) * 2 ^ Z.log2 (Zpos d)
                  <= 2 ^ (k + 1) * inject_Z (Zpos d))%Q)
      by (apply Qmult_le_l; [apply pow2_pos | exact Ld]).
    assert (H2 : (2 ^ (k + 1) * inject_Z (Zpos d)
                  <= (n # d) * inject_Z (Zpos d))%Q)
      by (apply Qmult_le_r; [exact Hd | exact C]).
    rewrite <- Hqd in H2. rewrite <- E2 in H1.
    apply (Qlt_irrefl (inject_Z n)).
    eapply Qlt_le_trans; [exact Un |]. eapply Qle_trans; eassumption.
  - assert (B' : ~ (2 ^ k <= n # d)%Q).
    { intros C. apply Qle_bool_iff in C. congruence. }
    apply Qnot_le_lt in B'.
    replace (k - 1 + 1) with k by ring. split; [| exact B'].
    apply Qnot_lt_le. intros C.
    assert (H1 : ((n # d) * inject_Z (Zpos d)
                  <= 2 ^ (k - 1) * inject_Z (Zpos d))%Q)
      by (apply Qmult_le_r; [exact Hd | apply Qlt_le_weak; exact C]).
    assert (H2 : (2 ^ (k - 1) * inject_Z (Zpos d)
                  < 2 ^ (k - 1) * 2 ^ (Z.log2 (Zpos d) + 1))%Q)
      by (apply Qmult_lt_l; [apply pow2_pos | exact Ud]).
    rewrite <- Hqd in H1. rewrite <- pow2_add in H2.
    replace (k - 1 + (Z.log2 (Zpos d) + 1)) with (Z.log2 n) in H2
      by (unfold k; ring).
    apply (Qlt_irrefl (inject_Z n)).
    eapply Qle_lt_trans; [exact H1 |]. eapply Qlt_le_trans; eassumption.
Qed.

Lemma Qlog2_unique (q : Q) (k : Z) :
  (2 ^ k <= q < 2 ^ (k + 1))%Q -> Qlog2 q = k.
Proof.
  intros [L U].
  assert (Hq : (0 < q)%Q) by (pose proof (pow2_pos k); lra).
  destruct (Qlog2_spec q Hq) as [L' U'].
  assert (k < Qlog2 q + 1) by (apply pow2_lt_inv; lra).
  assert (Qlog2 q < k + 1) by (apply pow2_lt_inv; lra).
  lia.
Qed.

Lemma Qlog2_comp (q q' : Q) : (0 < q)%Q -> (q == q')%Q -> Qlog2 q = Qlog2 q'.
Proof.
  intros Hq E. symmetry. apply Qlog2_unique. rewrite <- E. now apply Qlog2_spec.
Qed.

Lemma Qlog2_mono (q q' : Q) : (0 < q)%Q -> (q <= q')%Q -> Qlog2 q <= Qlog2 q'.
Proof.
  intros Hq H.
  destruct (Qlog2_spec q Hq) as [L U].
  destruct (Qlog2_spec q') as [L' U']; [lra |].
  assert (Qlog2 q < Qlog2 q' + 1) by (apply pow2_lt_inv; lra).
  lia.
Qed.

(** Exponent and mantissa. *)

Lemma exponent_eq (q : Q) : exponent q = Z.max (Qlog2 q - 52) (-1074).
Proof. unfold exponent, fexp, emin, prec, emax. lia. Qed.

Lemma exponent_mono (q q' : Q) :
  (0 < q)%Q -> (q <= q')%Q -> exponent q <= exponent q'.
Proof.
  intros Hq H. rewrite !exponent_eq.
  pose proof (Qlog2_mono q q' Hq H). lia.
Qed.

Lemma scaled_bounds (q : Q) :
  (0 < q)%Q ->
  (0 < q * 2 ^ (- exponent q) < 2 ^ 53)%Q /\
  (exponent q <> -1074 -> (2 ^ 52 <= q * 2 ^ (- exponent q))%Q).
Proof.
  intros Hq. destruct (Qlog2_spec q Hq) as [L U].
  pose proof (exponent_eq q) as He.
  pose proof (pow2_pos (- exponent q)) as Hp.
  split; [split |].
  - apply Qmult_lt_0_compat; assumption.
  - apply Qlt_le_trans with (2 ^ (Qlog2 q + 1) * 2 ^ (- exponent q))%Q.
    + apply Qmult_lt_r; assumption.
    + rewrite <- pow2_add. apply pow2_le. lia.
  - intros Hne.
    apply Qle_trans with (2 ^ Qlog2 q * 2 ^ (- exponent q))%Q.
    + rewrite <- pow2_add. apply pow2_le. lia.
    + apply Qmult_le_r; assumption.
Qed.

Lemma mantissa_bounds (q : Q) :
  (0 < q)%Q ->
  0 <= mantissa q <= 2 ^ 53 /\ (exponent q <> -1074 -> 2 ^ 52 <= mantissa q).
Proof.
  intros Hq. destruct (scaled_bounds q Hq) as [[L U] B]. unfold mantissa.
  split; [split |].
  - apply round_half_even_ge_Z. apply Qlt_le_weak. exact L.
  - apply round_half_even_le_Z. rewrite pow2_inject by lia.
    apply Qlt_le_weak. exact U.
  - intros Hne. apply round_half_even_ge_Z. rewrite pow2_inject by lia.
    now apply B.
Qed.

Lemma rnd_pos_nonneg (q : Q) : (0 < q)%Q -> (0 <= rnd_pos q)%Q.
Proof.
  intros Hq. unfold rnd_pos.
  destruct (mantissa_bounds q Hq) as [[L _] _].
  apply Qmult_le_0_compat.
  - now rewrite <- (Zle_Qle 0).
  - apply Qlt_le_weak, pow2_pos.
Qed.

Lemma rnd_pos_mono (q q' : Q) :
  (0 < q)%Q -> (q <= q')%Q -> (rnd_pos q <= rnd_pos q')%Q.
Proof.
  intros Hq H.
  assert (Hq' : (0 < q')%Q) by lra.
  pose proof (exponent_mono q q' Hq H) as He.
  destruct (mantissa_bounds q Hq) as [[L U] _].
  destruct (mantissa_bounds q' Hq') as [[L' U'] B'].
  unfold rnd_pos.
  destruct (Z.eq_dec (exponent q) (exponent q')) as [E | NE].
  - rewrite <- E. apply Qmult_le_r; [apply pow2_pos |].
    rewrite <- Zle_Qle. unfold mantissa. rewrite <- E.
    apply round_half_even_mono.
    apply Qmult_le_r; [apply pow2_pos | exact H].
  - assert (Hlt : exponent q < exponent q') by lia.
    assert (Hm : 2 ^ 52 <= mantissa q').
    { apply B'. pose proof (exponent_eq q). lia. }
    apply Qle_trans with (2 ^ 53 * 2 ^ exponent q)%Q.
    + apply Qmult_le_r; [apply pow2_pos |].
      rewrite <- pow2_inject by lia. now rewrite <- Zle_Qle.
    + apply Qle_trans with (2 ^ 52 * 2 ^ exponent q')%Q.
      * rewrite <- !pow2_add. apply pow2_le. lia.
      * apply Qmult_le_r; [apply pow2_pos |].
        rewrite <- pow2_inject by lia. now rewrite <- Zle_Qle.
Qed.

Lemma rnd_mono (q q' : Q) : (q <= q')%Q -> (rnd q <= rnd q')%Q.
Proof.
  intros H. unfold rnd.
  destruct (q ?= 0)%Q eqn:C; destruct (q' ?= 0)%Q eqn:C';
    try rewrite <- Qeq_alt in *; try rewrite <- Qlt_alt in *;
    try rewrite <- Qgt_alt in *; try (exfalso; lra).
  - lra.
  - apply rnd_pos_nonneg. lra.
  - assert (0 <= rnd_pos (- q))%Q by (apply rnd_pos_nonneg; lra). lra.
  - assert (rnd_pos (- q') <= rnd_pos (- q))%Q by (apply rnd_pos_mono; lra).
    lra.
  - assert (0 <= rnd_pos (- q))%Q by (apply rnd_pos_nonneg; lra).
    assert (0 <= rnd_pos q')%Q by (apply rnd_pos_nonneg; lra). lra.
  - apply rnd_pos_mono; lra.
Qed.

(** Mantissa sizes. *)

Lemma digits2_size (p : positive) : digits2_pos p = Pos.size p.
Proof. induction p; cbn; congruence. Qed.

Lemma digits2_log2 (p : positive) :
  Zpos (digits2_pos p) = Z.log2 (Zpos p) + 1.
Proof.
  rewrite digits2_size. destruct p; cbn; try lia.
Qed.

Lemma digits2_le (p : positive) (n : Z) :
  0 <= n -> (Zpos (digits2_pos p) <= n <-> Zpos p < 2 ^ n).
Proof.
  intros Hn. rewrite digits2_log2.
  rewrite (Z.log2_lt_pow2 (Zpos p) n) by lia. lia.
Qed.

Lemma digits2_gt (p : positive) (n : Z) :
  0 <= n -> (n < Zpos (digits2_pos p) <-> 2 ^ n <= Zpos p).
Proof.
  intros Hn. rewrite digits2_log2.
  rewrite (Z.log2_le_pow2 (Zpos p) n) by lia. lia.
Qed.

(** Packing. *)

Lemma F2Q_finite (s : bool) (m : positive) (e : Z) :
  (F2Q (S754_finite s m e) == sgn s (inject_Z (Zpos m) * 2 ^ e))%Q.
Proof. destruct s; cbn [F2Q sgn]; ring. Qed.

Lemma repr_sgn_inf (s : bool) (v : Q) :
  (2 ^ emax <= v)%Q -> repr (S754_infinity s) (sgn s v).
Proof.
  intros H. destruct s; cbn [sgn].
  - right; left. split; [reflexivity | lra].
  - left. split; [reflexivity | exact H].
Qed.

Lemma repr_sgn_finite (s : bool) (x : float) (v : Q) :
  is_finite x = true -> (F2Q x == sgn s v)%Q -> (0 <= v < 2 ^ emax)%Q ->
  repr x (sgn s v).
Proof.
  intros Hf E [L U]. right; right. split; [exact Hf | split; [exact E |]].
  destruct s; cbn [sgn]; lra.
Qed.

Lemma pack_correct (s : bool) (m e : Z) :
  0 <= m <= 2 ^ 53 -> -1074 <= e -> (e <> -1074 -> 2 ^ 52 <= m) ->
  repr (pack s m e) (sgn s (inject_Z m * 2 ^ e)) /\ valid (pack s m e) = true.
Proof.
  intros [L U] He B. unfold pack.
  destruct m as [| p | p]; [| | lia].
  - split; [| reflexivity].
    apply repr_sgn_finite; [reflexivity | destruct s; cbn; ring |].
    pose proof (pow2_pos emax).
    assert (inject_Z 0 * 2 ^ e == 0)%Q by ring. lra.
  - change (emax - prec) with 971. change prec with 53.
    destruct (Z.eqb_spec (Zpos p) (2 ^ 53)) as [E | NE]; cbv beta iota zeta.
    + rewrite E.
      destruct (Z.gtb_spec (e + 1) 971) as [G | G].
      * split; [| reflexivity]. apply repr_sgn_inf.
        rewrite pow2_inject by lia. rewrite <- pow2_add.
        apply pow2_le. unfold emax. lia.
      * split.
        -- apply repr_sgn_finite; [reflexivity | |].
           ++ rewrite F2Q_finite.
              assert (X : (inject_Z (Zpos (2 ^ 52)) * 2 ^ (e + 1)
                           == inject_Z (2 ^ 53) * 2 ^ e)%Q).
              { change (Zpos (2 ^ 52)) with (2 ^ 52).
                rewrite !pow2_inject by lia. rewrite <- !pow2_add.
                now replace (52 + (e + 1)) with (53 + e) by ring. }
              destruct s; cbn [sgn]; rewrite X; reflexivity.
           ++ rewrite pow2_inject by lia. rewrite <- pow2_add. split.
              ** apply Qlt_le_weak, pow2_pos.
              ** apply pow2_lt. unfold emax. lia.
        -- unfold valid, valid_binary, bounded, canonical_mantissa.
           change (Zpos (digits2_pos (2 ^ 52))) with 53.
           unfold fexp, emin, prec, emax.
           apply andb_true_intro. split; [apply Z.eqb_eq | apply Z.leb_le]; lia.
    + assert (Hp : Zpos p < 2 ^ 53) by lia.
      destruct (Z.gtb_spec e 971) as [G | G].
      * split; [| reflexivity]. apply repr_sgn_inf.
        apply Qle_trans with (2 ^ 52 * 2 ^ e)%Q.
        -- rewrite <- pow2_add. apply pow2_le. unfold emax. lia.
        -- apply Qmult_le_r; [apply pow2_pos |].
           rewrite <- pow2_inject by lia. rewrite <- Zle_Qle. apply B. lia.
      * split.
        -- apply repr_sgn_finite; [reflexivity | apply F2Q_finite |]. split.
           ++ apply Qmult_le_0_compat.
              ** now rewrite <- (Zle_Qle 0).
              ** apply Qlt_le_weak, pow2_pos.
           ++ apply Qlt_le_trans with (2 ^ 53 * 2 ^ e)%Q.
              ** apply Qmult_lt_r; [apply pow2_pos |].
                 rewrite <- pow2_inject by lia. now rewrite <- Zlt_Qlt.
              ** rewrite <- pow2_add. apply pow2_le. unfold emax. lia.
        -- unfold valid, valid_binary, bounded, canonical_mantissa.
           unfold fexp, emin, prec, emax.
           apply andb_true_intro. split; [apply Z.eqb_eq | apply Z.leb_le; lia].
           pose proof (proj2 (digits2_le p 53 ltac:(lia)) Hp) as D53.
           destruct (Z.eq_dec e (-1074)) as [Ee | Ne].
           ++ lia.
           ++ pose proof (proj2 (digits2_gt p 52 ltac:(lia)) (B Ne)). lia.
Qed.

Lemma round_pos_correct (s : bool) (q : Q) :
  (0 < q)%Q ->
  repr (round_pos s q) (sgn s (rnd_pos q)) /\ valid (round_pos s q) = true.
Proof.
  intros Hq. destruct (mantissa_bounds q Hq) as [Hm B].
  apply pack_correct; [exact Hm | rewrite exponent_eq; lia | exact B].
Qed.

Lemma round_Q_repr (sz : bool) (q : Q) : repr (round_Q sz q) (rnd q).
Proof.
  unfold round_Q, rnd.
  destruct (q ?= 0)%Q eqn:C;
    try rewrite <- Qeq_alt in *; try rewrite <- Qlt_alt in *;
    try rewrite <- Qgt_alt in *.
  - right; right. split; [reflexivity | split; [reflexivity |]].
    pose proof (pow2_pos emax). lra.
  - apply (round_pos_correct true (- q)). lra.
  - apply (round_pos_correct false q). lra.
Qed.

Lemma round_Q_valid (sz : bool) (q : Q) : valid (round_Q sz q) = true.
Proof.
  unfold round_Q.
  destruct (q ?= 0)%Q eqn:C;
    try rewrite <- Qeq_alt in *; try rewrite <- Qlt_alt in *;
    try rewrite <- Qgt_alt in *.
  - reflexivity.
  - apply round_pos_correct. lra.
  - apply round_pos_correct. lra.
Qed.

Ltac qcompare :=
  try rewrite <- Qeq_alt in *; try rewrite <- Qlt_alt in *;
  try rewrite <- Qgt_alt in *.

(** Rounding respects equality of rationals. *)

Lemma exponent_comp (q q' : Q) :
  (0 < q)%Q -> (q == q')%Q -> exponent q = exponent q'.
Proof. intros Hq E. unfold exponent. now rewrite (Qlog2_comp q q' Hq E). Qed.

Lemma mantissa_comp (q q' : Q) :
  (0 < q)%Q -> (q == q')%Q -> mantissa q = mantissa q'.
Proof.
  intros Hq E. unfold mantissa. rewrite (exponent_comp q q' Hq E).
  apply round_half_even_comp. now rewrite E.
Qed.

Lemma round_pos_comp (s : bool) (q q' : Q) :
  (0 < q)%Q -> (q == q')%Q -> round_pos s q = round_pos s q'.
Proof.
  intros Hq E. unfold round_pos.
  now rewrite (mantissa_comp q q' Hq E), (exponent_comp q q' Hq E).
Qed.

Lemma rnd_pos_comp (q q' : Q) :
  (0 < q)%Q -> (q == q')%Q -> (rnd_pos q == rnd_pos q')%Q.
Proof.
  intros Hq E. unfold rnd_pos.
  now rewrite (mantissa_comp q q' Hq E), (exponent_comp q q' Hq E).
Qed.

Lemma rnd_comp (q q' : Q) : (q == q')%Q -> (rnd q == rnd q')%Q.
Proof.
  intros E. unfold rnd.
  assert (C : (q ?= 0)%Q = (q' ?= 0)%Q) by now rewrite E.
  rewrite <- C. destruct (q ?= 0)%Q eqn:D; qcompare.
  - reflexivity.
  - rewrite (rnd_pos_comp (- q) (- q')); [reflexivity | lra | now rewrite E].
  - apply rnd_pos_comp; assumption.
Qed.

Lemma repr_comp (x : float) (v w : Q) : (v == w)%Q -> repr x v -> repr x w.
Proof.
  intros E [[H1 H2] | [[H1 H2] | [H1 [H2 H3]]]].
  - left. split; [exact H1 | now rewrite <- E].
  - right; left. split; [exact H1 | now rewrite <- E].
  - right; right. split; [exact H1 |]. now rewrite <- E.
Qed.

(** A binary64 number is the rounding of its own value. *)

Lemma valid_finite_bounds (s : bool) (m : positive) (e : Z) :
  valid (S754_finite s m e) = true ->
  fexp prec emax (Zpos (digits2_pos m) + e) = e /\ e <= 971 /\
  Zpos m < 2 ^ 53.
Proof.
  unfold valid, valid_binary, bounded, canonical_mantissa. intros H.
  apply andb_prop in H. destruct H as [H1 H2].
  apply Z.eqb_eq in H1. apply Z.leb_le in H2.
  split; [exact H1 | split; [exact H2 |]].
  apply digits2_le; [lia |].
  unfold fexp, emin, prec, emax in H1. lia.
Qed.

Lemma round_pos_valid_finite (s : bool) (m : positive) (e : Z) :
  valid (S754_finite s m e) = true ->
  round_pos s (inject_Z (Zpos m) * 2 ^ e) = S754_finite s m e.
Proof.
  intros Hv. destruct (valid_finite_bounds s m e Hv) as [Hc [He Hm]].
  set (q := (inject_Z (Zpos m) * 2 ^ e)%Q).
  destruct (Zlog2_Q (Zpos m) eq_refl) as [L U].
  assert (Hl : Qlog2 q = Z.log2 (Zpos m) + e).
  { apply Qlog2_unique. unfold q. split.
    - rewrite pow2_add. apply Qmult_le_r; [apply pow2_pos | exact L].
    - replace (Z.log2 (Zpos m) + e + 1) with (Z.log2 (Zpos m) + 1 + e) by ring.
      rewrite pow2_add. apply Qmult_lt_r; [apply pow2_pos | exact U]. }
  assert (Hx : exponent q = e).
  { unfold exponent. rewrite Hl.
    transitivity (fexp prec emax (Zpos (digits2_pos m) + e)); [| exact Hc].
    f_equal. rewrite digits2_log2. ring. }
  assert (Hn : mantissa q = Zpos m).
  { unfold mantissa. rewrite Hx.
    transitivity (round_half_even (inject_Z (Zpos m)));
      [| apply round_half_even_Z].
    apply round_half_even_comp. unfold q.
    rewrite <- Qmult_assoc. rewrite (Qmult_comm (2 ^ e)), pow2_cancel. ring. }
  unfold round_pos. rewrite Hx, Hn. unfold pack.
  change (emax - prec) with 971. change prec with 53.
  destruct (Z.eqb_spec (Zpos m) (2 ^ 53)) as [E | _]; [lia |].
  destruct (Z.gtb_spec e 971) as [G | _]; [lia | reflexivity].
Qed.

Lemma round_Q_valid_finite (sz s : bool) (m : positive) (e : Z) :
  valid (S754_finite s m e) = true ->
  round_Q sz (F2Q (S754_finite s m e)) = S754_finite s m e.
Proof.
  intros Hv.
  assert (Hq : (0 < inject_Z (Zpos m) * 2 ^ e)%Q).
  { apply Qmult_lt_0_compat; [now rewrite <- (Zlt_Qlt 0) | apply pow2_pos]. }
  pose proof (F2Q_finite s m e) as E.
  unfold round_Q.
  destruct s; cbn [sgn] in E.
  - assert (C : (F2Q (S754_finite true m e) ?= 0)%Q = Lt) by (qcompare; lra).
    rewrite C.
    transitivity (round_pos true (inject_Z (Zpos m) * 2 ^ e));
      [| now apply round_pos_valid_finite].
    apply round_pos_comp; [lra | rewrite E; ring].
  - assert (C : (F2Q (S754_finite false m e) ?= 0)%Q = Gt) by (qcompare; lra).
    rewrite C.
    transitivity (round_pos false (inject_Z (Zpos m) * 2 ^ e));
      [| now apply round_pos_valid_finite].
    apply round_pos_comp; [lra | exact E].
Qed.

Lemma repr_zero (s : bool) : repr (S754_zero s) 0.
Proof.
  right; right. split; [reflexivity | split; [reflexivity |]].
  pose proof (pow2_pos emax). lra.
Qed.

Lemma rnd_0 : rnd 0 = 0%Q.
Proof. reflexivity. Qed.

Lemma repr_valid (x : float) :
  valid x = true -> is_finite x = true ->
  repr x (F2Q x) /\ (rnd (F2Q x) == F2Q x)%Q.
Proof.
  intros Hv Hf. destruct x as [s | s | | s m e]; try discriminate.
  - split; [apply repr_zero | reflexivity].
  - pose proof (round_Q_repr false (F2Q (S754_finite s m e))) as H.
    rewrite (round_Q_valid_finite false s m e Hv) in H.
    destruct H as [[H _] | [[H _] | [_ [H2 H3]]]]; try discriminate.
    split; [| now symmetry].
    right; right. split; [reflexivity | split; [reflexivity |]].
    now rewrite H2.
Qed.

Lemma rnd_pow_emax : (rnd (2 ^ emax) == 2 ^ emax)%Q.
Proof. vm_compute. reflexivity. Qed.

Lemma rnd_opp (q : Q) : (rnd (- q) == - rnd q)%Q.
Proof.
  unfold rnd.
  destruct (q ?= 0)%Q eqn:C; destruct (- q ?= 0)%Q eqn:C'; qcompare;
    try (exfalso; lra); try reflexivity.
  - ring.
  - rewrite (rnd_pos_comp (- - q) q); [reflexivity | lra | ring].
Qed.

(** The order of floats is the order of their values. *)

Lemma repr_xval (x : float) :
  valid x = true -> is_nan x = false ->
  repr x (xval x) /\ (rnd (xval x) == xval x)%Q.
Proof.
  intros Hv Hn. destruct x as [s | s | | s m e]; try discriminate.
  - apply repr_valid; [exact Hv | reflexivity].
  - cbn [xval]. split; [apply repr_sgn_inf; lra |].
    destruct s; cbn [sgn].
    + rewrite rnd_opp, rnd_pow_emax. reflexivity.
    + apply rnd_pow_emax.
  - apply repr_valid; [exact Hv | reflexivity].
Qed.

Lemma leb_finite (x y : float) :
  is_finite x = true -> is_finite y = true ->
  leb x y = true <-> (F2Q x <= F2Q y)%Q.
Proof.
  intros Hx Hy. rewrite Qle_alt.
  destruct x as [sx | sx | | sx mx ex]; try discriminate;
    destruct y as [sy | sy | | sy my ey]; try discriminate;
    unfold leb, compare;
    match goal with |- context [(?a ?= ?b)%Q] => destruct (a ?= b)%Q end;
    split; congruence.
Qed.

Lemma leb_repr (x y : float) (v w : Q) :
  repr x v -> repr y w -> (v <= w)%Q -> leb x y = true.
Proof.
  pose proof (pow2_pos emax) as Hp.
  intros [[X1 X2] | [[X1 X2] | [X1 [X2 X3]]]]
         [[Y1 Y2] | [[Y1 Y2] | [Y1 [Y2 Y3]]]] H; subst;
    try reflexivity; try (exfalso; lra).
  - destruct y; try discriminate; reflexivity.
  - destruct x; try discriminate; reflexivity.
  - apply leb_finite; try assumption. lra.
Qed.

Lemma leb_xval (x y : float) :
  valid x = true -> valid y = true -> leb x y = true ->
  (xval x <= xval y)%Q.
Proof.
  intros Vx Vy H.
  pose proof (pow2_pos emax) as Hp.
  assert (Nx : is_nan x = false) by (destruct x; try reflexivity; discriminate).
  assert (Ny : is_nan y = false)
    by (destruct x; destruct y; try reflexivity; discriminate).
  destruct (repr_xval x Vx Nx) as [[[X1 X2] | [[X1 X2] | [X1 [X2 X3]]]] _];
    destruct (repr_xval y Vy Ny) as [[[Y1 Y2] | [[Y1 Y2] | [Y1 [Y2 Y3]]]] _];
    subst; cbn [xval sgn] in *; try lra; try discriminate.
  - destruct y; discriminate.
  - destruct x; discriminate.
  - apply (leb_finite x y X1 Y1) in H. lra.
Qed.

Lemma leb_refl (x : float) : is_nan x = false -> leb x x = true.
Proof.
  destruct x as [s | s | | s m e]; try discriminate; intros _.
  - reflexivity.
  - destruct s; reflexivity.
  - apply leb_finite; try reflexivity. lra.
Qed.

Lemma leb_trans (x y z : float) :
  leb x y = true -> leb y z = true -> leb x z = true.
Proof.
  intros H1 H2.
  destruct (is_finite x) eqn:Fx; destruct (is_finite y) eqn:Fy;
    destruct (is_finite z) eqn:Fz.
  1: { apply leb_finite; try assumption.
       apply leb_finite in H1; try assumption.
       apply leb_finite in H2; try assumption. lra. }
  all: destruct x, y, z; try discriminate;
    repeat match goal with s : bool |- _ => destruct s end;
    try discriminate; try reflexivity.
Qed.

(** Decimal rounding. *)

Lemma pow10_pos (n : Z) : (0 < 10 ^ n)%Q.
Proof. apply Qpower_0_lt. reflexivity. Qed.

Lemma decimal_comp (nd : Z) (v w : Q) :
  (v == w)%Q -> (decimal nd v == decimal nd w)%Q.
Proof.
  intros E. unfold decimal.
  rewrite (round_half_even_comp (v * 10 ^ nd) (w * 10 ^ nd)); [reflexivity |].
  now rewrite E.
Qed.

Lemma decimal_mono (nd : Z) (v w : Q) :
  (v <= w)%Q -> (decimal nd v <= decimal nd w)%Q.
Proof.
  intros H. unfold decimal, Qdiv.
  pose proof (pow10_pos nd) as Hp.
  apply Qmult_le_r; [apply Qinv_lt_0_compat; exact Hp |].
  rewrite <- Zle_Qle. apply round_half_even_mono.
  apply Qmult_le_r; assumption.
Qed.

Lemma decimal_Z (nd n : Z) :
  0 <= nd -> (decimal nd (inject_Z n) == inject_Z n)%Q.
Proof.
  intros Hnd. unfold decimal.
  pose proof (pow10_pos nd) as Hp.
  assert (E : (inject_Z n * 10 ^ nd == inject_Z (n * 10 ^ nd))%Q).
  { rewrite inject_Z_mult. rewrite (Zpower_Qpower 10 nd Hnd). reflexivity. }
  rewrite (round_half_even_comp _ _ E), round_half_even_Z, <- E.
  field. intros C. rewrite C in Hp. exact (Qlt_irrefl 0 Hp).
Qed.

Lemma pow2_emax_Z : (2 ^ emax == inject_Z (2 ^ 1024))%Q.
Proof. symmetry. apply (pow2_inject 1024). lia. Qed.

Lemma rnd_decimal_emax (nd : Z) :
  0 <= nd -> (rnd (decimal nd (2 ^ emax)) == 2 ^ emax)%Q.
Proof.
  intros Hnd.
  rewrite (rnd_comp _ (2 ^ emax)); [apply rnd_pow_emax |].
  rewrite (decimal_comp nd _ _ pow2_emax_Z), decimal_Z by exact Hnd.
  symmetry. apply pow2_emax_Z.
Qed.

(** [round(x, ndigits)]. *)

Lemma round_repr (x : float) (nd : Z) :
  is_nan x = false -> x <> S754_infinity true -> 0 <= nd <= 323 ->
  repr (round x nd) (rnd (decimal nd (xval x))).
Proof.
  intros Hn Hi Hnd. destruct x as [s | s | | s m e]; try discriminate.
  - cbn [round xval F2Q].
    apply (repr_comp _ 0); [| apply repr_zero].
    rewrite (rnd_comp (decimal nd 0) 0); [reflexivity |].
    apply (decimal_Z nd 0). lia.
  - destruct s; [congruence |]. cbn [round xval sgn].
    left. split; [reflexivity |]. rewrite rnd_decimal_emax by lia. lra.
  - unfold round.
    destruct (Z.gtb_spec nd 323) as [G | _]; [lia |].
    destruct (Z.ltb_spec nd (-308)) as [G | _]; [lia |].
    apply round_Q_repr.
Qed.

Lemma round_valid (x : float) (nd : Z) :
  valid x = true -> valid (round x nd) = true.
Proof.
  intros Hv. destruct x as [s | s | | s m e]; try exact Hv.
  unfold round.
  destruct (nd >? 323); [exact Hv |].
  destruct (nd <? -308); [reflexivity | apply round_Q_valid].
Qed.

Lemma xval_finite (x : float) : is_finite x = true -> xval x = F2Q x.
Proof. destruct x; try discriminate; reflexivity. Qed.

Lemma leb_not_nan (x y : float) :
  leb x y = true -> is_nan x = false /\ is_nan y = false.
Proof.
  destruct x, y; try discriminate; intros _; split; reflexivity.
Qed.

Lemma round_mono_finite (x y : float) (nd : Z) :
  is_finite x = true -> is_finite y = true -> 0 <= nd <= 323 ->
  leb x y = true -> leb (round x nd) (round y nd) = true.
Proof.
  intros Fx Fy Hnd H. destruct (leb_not_nan x y H) as [Nx Ny].
  assert (Ix : x <> S754_infinity true) by (destruct x; discriminate).
  assert (Iy : y <> S754_infinity true) by (destruct y; discriminate).
  apply (leb_repr _ _ _ _ (round_repr x nd Nx Ix Hnd)
                          (round_repr y nd Ny Iy Hnd)).
  apply rnd_mono, decimal_mono. rewrite !xval_finite by assumption.
  now apply leb_finite.
Qed.

(** Conversions of integers. *)

Lemma of_Z_repr (n : Z) : repr (of_Z n) (rnd (inject_Z n)).
Proof. apply round_Q_repr. Qed.

Lemma of_Z_mono (a b : Z) : a <= b -> leb (of_Z a) (of_Z b) = true.
Proof.
  intros H. apply (leb_repr _ _ _ _ (of_Z_repr a) (of_Z_repr b)).
  apply rnd_mono. now rewrite <- Zle_Qle.
Qed.

(** Sums of non-negative numbers. *)

Lemma nonneg_cases (x : float) :
  nonneg x ->
  (exists s, x = S754_zero s) \/ x = S754_infinity false \/
  (exists m e, x = S754_finite false m e).
Proof.
  intros [Hv Hl]. destruct x as [s | s | | s m e]; try discriminate.
  - left. now exists s.
  - destruct s; [discriminate |]. right; left. reflexivity.
  - right; right. destruct s; [| now exists m, e].
    exfalso. apply leb_finite in Hl; try reflexivity.
    pose proof (F2Q_finite true m e) as E. cbn [sgn] in E.
    assert (0 < inject_Z (Zpos m) * 2 ^ e)%Q.
    { apply Qmult_lt_0_compat; [now rewrite <- (Zlt_Qlt 0) | apply pow2_pos]. }
    change (F2Q pos_zero) with 0%Q in Hl. lra.
Qed.

Lemma nonneg_not_nan (x : float) : nonneg x -> is_nan x = false.
Proof. intros [_ H]. now apply leb_not_nan in H. Qed.

Lemma nonneg_xval (x : float) : nonneg x -> (0 <= xval x)%Q.
Proof.
  intros [Hv Hl]. change 0%Q with (xval pos_zero).
  apply leb_xval; [reflexivity | exact Hv | exact Hl].
Qed.

Lemma nonneg_not_neg_inf (x : float) : nonneg x -> x <> S754_infinity true.
Proof. intros [_ H] ->. discriminate. Qed.

Lemma nonneg_trans (x y : float) :
  nonneg x -> valid y = true -> leb x y = true -> nonneg y.
Proof.
  intros [_ Hx] Vy H. split; [exact Vy | now apply (leb_trans _ x)].
Qed.

Lemma round_mono (x y : float) (nd : Z) :
  nonneg x -> nonneg y -> 0 <= nd <= 323 ->
  leb x y = true -> leb (round x nd) (round y nd) = true.
Proof.
  intros Gx Gy Hnd H.
  pose proof (round_repr x nd (nonneg_not_nan x Gx)
                (nonneg_not_neg_inf x Gx) Hnd) as Rx.
  pose proof (round_repr y nd (nonneg_not_nan y Gy)
                (nonneg_not_neg_inf y Gy) Hnd) as Ry.
  apply (leb_repr _ _ _ _ Rx Ry).
  apply rnd_mono, decimal_mono. apply leb_xval; [apply Gx | apply Gy | exact H].
Qed.

Lemma add_repr (a b : float) :
  nonneg a -> nonneg b -> repr (add a b) (rnd (xval a + xval b)).
Proof.
  intros Ga Gb.
  pose proof (nonneg_xval a Ga) as Pa. pose proof (nonneg_xval b Gb) as Pb.
  pose proof (pow2_pos emax) as Hp.
  destruct (repr_xval a (proj1 Ga) (nonneg_not_nan a Ga)) as [Ra Ea].
  destruct (repr_xval b (proj1 Gb) (nonneg_not_nan b Gb)) as [Rb Eb].
  assert (Inf : forall u, (2 ^ emax <= u)%Q -> (2 ^ emax <= rnd u)%Q).
  { intros u Hu. rewrite <- rnd_pow_emax at 1. now apply rnd_mono. }
  destruct (nonneg_cases a Ga) as [[sa ->] | [-> | [ma [ea ->]]]];
    destruct (nonneg_cases b Gb) as [[sb ->] | [-> | [mb [eb ->]]]];
    cbn [add Bool.eqb];
    try (left; split; [reflexivity | apply Inf; cbn [xval sgn] in *; lra]).
  - destruct (Bool.eqb sa sb); apply repr_zero.
  - apply (repr_comp _ (xval (S754_finite false mb eb))); [| exact Rb].
    rewrite <- Eb at 1. apply rnd_comp. cbn [xval F2Q]. ring.
  - apply (repr_comp _ (xval (S754_finite false ma ea))); [| exact Ra].
    rewrite <- Ea at 1. apply rnd_comp. cbn [xval F2Q]. ring.
  - apply round_Q_repr.
Qed.

Lemma add_valid (a b : float) :
  valid a = true -> valid b = true -> valid (add a b) = true.
Proof.
  intros Va Vb.
  destruct a as [sa | sa | | sa ma ea]; destruct b as [sb | sb | | sb mb eb];
    cbn [add]; try assumption; try reflexivity;
    try (destruct (Bool.eqb sa sb); reflexivity).
  apply round_Q_valid.
Qed.

Lemma add_nonneg (a b : float) : nonneg a -> nonneg b -> nonneg (add a b).
Proof.
  intros Ga Gb. split.
  - apply add_valid; [apply Ga | apply Gb].
  - apply (leb_repr _ _ 0 _ (repr_zero false) (add_repr a b Ga Gb)).
    rewrite <- rnd_0. apply rnd_mono.
    pose proof (nonneg_xval a Ga). pose proof (nonneg_xval b Gb). lra.
Qed.

Lemma add_le_l (a b : float) :
  nonneg a -> nonneg b -> leb a (add a b) = true.
Proof.
  intros Ga Gb.
  destruct (repr_xval a (proj1 Ga) (nonneg_not_nan a Ga)) as [Ra Ea].
  apply (leb_repr _ _ _ _ Ra (add_repr a b Ga Gb)).
  rewrite <- Ea at 1. apply rnd_mono.
  pose proof (nonneg_xval b Gb). lra.
Qed.

Lemma add_mono (a a' b : float) :
  nonneg a -> nonneg a' -> nonneg b -> leb a a' = true ->
  leb (add a b) (add a' b) = true.
Proof.
  intros Ga Ga' Gb H.
  apply (leb_repr _ _ _ _ (add_repr a b Ga Gb) (add_repr a' b Ga' Gb)).
  apply rnd_mono.
  pose proof (leb_xval a a' (proj1 Ga) (proj1 Ga') H). lra.
Qed.

Lemma fold_add_nonneg (l : list float) (a : float) :
  nonneg a -> Forall nonneg l -> nonneg (fold_left add l a).
Proof.
  revert a. induction l as [| x l IH]; intros a Ga Hl; [exact Ga |].
  inversion Hl; subst. cbn. apply IH; [now apply add_nonneg | assumption].
Qed.

Lemma fold_add_filter {A : Type} (f : A -> float) (p : A -> bool)
      (l : list A) (a a' : float) :
  nonneg a -> nonneg a' -> leb a a' = true -> Forall nonneg (map f l) ->
  leb (fold_left add (map f (filter p l)) a) (fold_left add (map f l) a')
  = true.
Proof.
  revert a a'. induction l as [| x l IH]; intros a a' Ga Ga' H Hl; [exact H |].
  inversion Hl as [| ? ? Gx Hl']; subst. cbn [filter].
  destruct (p x); cbn [map fold_left].
  - apply IH; try assumption; try now apply add_nonneg.
    now apply add_mono.
  - apply IH; try assumption; try now apply add_nonneg.
    apply (leb_trans _ a'); [exact H | now apply add_le_l].
Qed.

End FloatFacts.

Import Float FloatFacts.

(** ** Python sums and quotients *)

Lemma fold_add_floats (l : list float) (a : float) :
  fold_left Py.add (map Py.PyFloat l) (Py.PyFloat a)
  = Py.PyFloat (fold_left Float.add l a).
Proof.
  revert a. induction l as [| x l IH]; intros a; [reflexivity |].
  cbn [map fold_left]. apply IH.
Qed.

Lemma values_map (assets : list Asset) :
  values assets = map Py.PyFloat (map nominal_value assets).
Proof. unfold values. now rewrite map_map. Qed.

Lemma sum_values_cons (a : Asset) (assets : list Asset) :
  Py.sum (values (a :: assets))
  = Py.PyFloat (fold_left Float.add (map nominal_value (a :: assets)) pos_zero).
Proof.
  rewrite values_map. unfold Py.sum. cbn [map fold_left].
  apply fold_add_floats.
Qed.

Lemma sum_values (assets : list Asset) :
  Py.to_float (Py.sum (values assets))
  = fold_left Float.add (map nominal_value assets) pos_zero.
Proof.
  destruct assets as [| a l]; [reflexivity |].
  now rewrite sum_values_cons.
Qed.

Lemma truthy_sum (assets : list Asset) :
  Py.truthy (Py.sum (values assets)) = true ->
  exists t, Py.sum (values assets) = Py.PyFloat t /\ is_zero t = false.
Proof.
  destruct assets as [| a l]; [discriminate |].
  rewrite sum_values_cons. intros H. eexists. split; [reflexivity |].
  cbn [Py.truthy] in H. now apply negb_true_iff in H.
Qed.

Lemma truediv_float (a : Py.number) (t : float) :
  is_zero t = false ->
  Py.truediv a (Py.PyFloat t) = Ok (Py.PyFloat (Float.div (Py.to_float a) t)).
Proof.
  intros H. destruct a; unfold Py.truediv; cbn [Py.to_float]; now rewrite H.
Qed.

Lemma rnd_1 : (rnd 1 == 1)%Q.
Proof. vm_compute. reflexivity. Qed.

Lemma rnd_pos_1 : (rnd_pos 1 == 1)%Q.
Proof. vm_compute. reflexivity. Qed.

Lemma one_lt_pow2_emax : (1 < 2 ^ emax)%Q.
Proof. change 1%Q with (2 ^ 0)%Q. apply pow2_lt. reflexivity. Qed.

Lemma repr_unit (x : float) (v : Q) :
  repr x v -> (0 <= v <= 1)%Q ->
  is_finite x = true /\ (0 <= F2Q x <= 1)%Q.
Proof.
  pose proof one_lt_pow2_emax as H1.
  intros [[_ H] | [[_ H] | [Hf [E _]]]] [L U]; try (exfalso; lra).
  split; [exact Hf | lra].
Qed.

Lemma round_Q_unit (sz : bool) (q : Q) :
  (0 <= q <= 1)%Q ->
  is_finite (round_Q sz q) = true /\ (0 <= F2Q (round_Q sz q) <= 1)%Q.
Proof.
  intros [L U]. apply (repr_unit _ _ (round_Q_repr sz q)). split.
  - rewrite <- rnd_0. now apply rnd_mono.
  - rewrite <- rnd_1. now apply rnd_mono.
Qed.

Lemma truediv_len (c n : nat) :
  (c <= n)%nat -> (0 < n)%nat ->
  let r := round_Q false (inject_Z (Z.of_nat c) / inject_Z (Z.of_nat n)) in
  Py.truediv (Py.PyInt (Z.of_nat c)) (Py.PyInt (Z.of_nat n))
  = Ok (Py.PyFloat r)
  /\ is_finite r = true /\ (0 <= F2Q r <= 1)%Q.
Proof.
  intros Hc Hn r.
  assert (Hq : (0 <= inject_Z (Z.of_nat c) / inject_Z (Z.of_nat n) <= 1)%Q).
  { assert (0 < inject_Z (Z.of_nat n))%Q by (rewrite <- (Zlt_Qlt 0); lia).
    assert (0 <= inject_Z (Z.of_nat c))%Q by (rewrite <- (Zle_Qle 0); lia).
    assert (inject_Z (Z.of_nat c) <= inject_Z (Z.of_nat n))%Q
      by (rewrite <- Zle_Qle; lia).
    split.
    - apply Qle_shift_div_l; [assumption | lra].
    - apply Qle_shift_div_r; [assumption | lra]. }
  destruct (round_Q_unit false _ Hq) as [Hf Hu]. fold r in Hf, Hu.
  split; [| split; assumption].
  unfold Py.truediv.
  destruct (Z.eqb_spec (Z.of_nat n) 0) as [E | _]; [lia |].
  destruct (Z.ltb_spec (Z.of_nat c) 0) as [E | _]; [lia |].
  destruct (Z.ltb_spec (Z.of_nat n) 0) as [E | _]; [lia |].
  cbn [xorb]. fold r. destruct r; try discriminate; reflexivity.
Qed.

Lemma round_unit (r : float) (nd : Z) :
  is_finite r = true -> (0 <= F2Q r <= 1)%Q -> 0 <= nd <= 323 ->
  in_unit_interval (Float.round r nd) = true.
Proof.
  intros Hf [L U] Hnd.
  assert (Nn : is_nan r = false) by (destruct r; try discriminate; reflexivity).
  assert (Ni : r <> S754_infinity true) by (destruct r; discriminate).
  pose proof (round_repr r nd Nn Ni Hnd) as Hr.
  rewrite (xval_finite r Hf) in Hr.
  unfold in_unit_interval. apply andb_true_intro. split.
  - apply (leb_repr _ _ _ _ (of_Z_repr 0) Hr). apply rnd_mono.
    apply Qle_trans with (decimal nd (inject_Z 0)).
    + rewrite decimal_Z by lia. apply Qle_refl.
    + now apply decimal_mono.
  - apply (leb_repr _ _ _ _ Hr (of_Z_repr 1)). apply rnd_mono.
    apply Qle_trans with (decimal nd (inject_Z 1)).
    + now apply decimal_mono.
    + rewrite decimal_Z by lia. apply Qle_refl.
Qed.

Lemma ltb_pos_zero (t : float) :
  nonneg t -> is_finite t = true -> ltb pos_zero t = true ->
  exists m e, t = S754_finite false m e.
Proof.
  intros Gt Hf Hl.
  destruct (nonneg_cases t Gt) as [[s ->] | [-> | H]];
    [discriminate | discriminate | exact H].
Qed.

Lemma div_unit (p t : float) :
  nonneg p -> nonneg t -> is_finite t = true -> ltb pos_zero t = true ->
  leb p t = true ->
  is_finite (Float.div p t) = true /\ (0 <= F2Q (Float.div p t) <= 1)%Q.
Proof.
  intros Gp Gt Hf Hpos Hle.
  destruct (ltb_pos_zero t Gt Hf Hpos) as [mt [et ->]].
  destruct (nonneg_cases p Gp) as [[s ->] | [-> | [mp [ep ->]]]].
  - cbn [Float.div F2Q is_finite]. split; [reflexivity | lra].
  - discriminate.
  - cbn [Float.div xorb].
    apply leb_finite in Hle; try reflexivity.
    pose proof (F2Q_finite false mp ep) as Ep.
    pose proof (F2Q_finite false mt et) as Et. cbn [sgn] in Ep, Et.
    assert (Pp : (0 < F2Q (S754_finite false mp ep))%Q).
    { rewrite Ep. apply Qmult_lt_0_compat;
        [now rewrite <- (Zlt_Qlt 0) | apply pow2_pos]. }
    assert (Pt : (0 < F2Q (S754_finite false mt et))%Q) by lra.
    set (x := F2Q (S754_finite false mp ep)) in *.
    set (y := F2Q (S754_finite false mt et)) in *.
    assert (Hq : (0 < Qabs x / Qabs y <= 1)%Q).
    { rewrite (Qabs_pos x), (Qabs_pos y) by lra. split.
      - apply Qlt_shift_div_l; [assumption | lra].
      - apply Qle_shift_div_r; [assumption | lra]. }
    destruct (round_pos_correct false _ (proj1 Hq)) as [Hr _].
    cbn [sgn] in Hr. apply (repr_unit _ _ Hr). split.
    + apply rnd_pos_nonneg. apply Hq.
    + rewrite <- rnd_pos_1. apply rnd_pos_mono; apply Hq.
Qed.

(** ** [calculate_insights] *)

Lemma with_status_length (s : Status) (assets : list Asset) :
  (List.length (with_status s assets) <= List.length assets)%nat.
Proof. apply filter_length_le. Qed.

Lemma calculate_insights_eq (assets : list Asset) :
  calculate_insights assets
  = Ok (insights
          (Py.to_float (Py.round (Py.sum (values assets)) 2))
          (default_rate_of assets)
          (Py.to_float
             (Py.round (Py.sum (values (with_status active assets))) 2))
          (collection_rate_of assets)).
Proof.
  unfold calculate_insights, insights.
  assert (D : match assets with
              | _ :: _ => Py.truediv (Py.len (with_status defaulted assets))
                                     (Py.len assets)
              | [] => Ok (Py.PyInt 0)
              end
              = Ok (match assets with
                    | [] => Py.PyInt 0
                    | _ :: _ =>
                        Py.PyFloat
                          (round_Q false
                             (inject_Z (Z.of_nat (List.length
                                          (with_status defaulted assets)))
                              / inject_Z (Z.of_nat (List.length assets))))
                    end)).
  { destruct assets as [| a l]; [reflexivity |]. unfold Py.len.
    apply truediv_len; [apply with_status_length | cbn; lia]. }
  rewrite D. cbn [bind]. unfold collection_rate_of.
  destruct (Py.truthy (Py.sum (values assets))) eqn:T.
  - destruct (truthy_sum assets T) as [t [Et Zt]].
    rewrite Et. rewrite (truediv_float _ t Zt). cbn [bind].
    destruct assets as [| a l]; reflexivity.
  - cbn [bind]. destruct assets as [| a l]; reflexivity.
Qed.

Lemma nonneg_pos_zero : nonneg pos_zero.
Proof. split; reflexivity. Qed.

Lemma Forall_with_status (P : Asset -> Prop) (s : Status)
      (assets : list Asset) :
  Forall P assets -> Forall P (with_status s assets).
Proof.
  intros H. apply Forall_forall. intros a Ha.
  apply filter_In in Ha. destruct Ha as [Ha _].
  revert a Ha. now apply Forall_forall.
Qed.

Lemma sum_values_nonneg (assets : list Asset) :
  Forall (fun a => nonneg (nominal_value a)) assets ->
  nonneg (Py.to_float (Py.sum (values assets))).
Proof.
  intros H. rewrite sum_values.
  apply fold_add_nonneg; [apply nonneg_pos_zero | now apply Forall_map].
Qed.

Lemma sum_with_status_le (s : Status) (assets : list Asset) :
  Forall (fun a => nonneg (nominal_value a)) assets ->
  leb (Py.to_float (Py.sum (values (with_status s assets))))
      (Py.to_float (Py.sum (values assets))) = true.
Proof.
  intros H. rewrite !sum_values. unfold with_status.
  apply fold_add_filter; try apply nonneg_pos_zero.
  now apply Forall_map.
Qed.

Lemma round_sum (assets : list Asset) (nd : Z) :
  0 <= nd ->
  Py.to_float (Py.round (Py.sum (values assets)) nd)
  = Float.round (Py.to_float (Py.sum (values assets))) nd.
Proof.
  intros Hnd. destruct assets as [| a l].
  - cbn [values map Py.sum fold_left Py.round].
    destruct (Z.leb_spec 0 nd) as [_ | C]; [reflexivity | lia].
  - rewrite sum_values_cons. reflexivity.
Qed.

Lemma same_values (l1 l2 : list Asset) :
  Forall2 same_value_and_status l1 l2 -> values l1 = values l2.
Proof.
  induction 1 as [| a b l1 l2 [Hv _] _ IH]; [reflexivity |].
  unfold values in *. cbn [map]. now rewrite Hv, IH.
Qed.

Lemma same_with_status (s : Status) (l1 l2 : list Asset) :
  Forall2 same_value_and_status l1 l2 ->
  Forall2 same_value_and_status (with_status s l1) (with_status s l2).
Proof.
  induction 1 as [| a b l1 l2 [Hv Hs] _ IH]; [constructor |].
  unfold with_status in *. cbn [filter]. rewrite Hs.
  destruct (Status_eqb (status b) s); [constructor; [split |] |]; assumption.
Qed.

(** ** Checks of the model *)

(** On every pair of [samples], [Float.add], [Float.div] and the
    comparisons are the IEEE 754 operations of the standard library. *)
Example operations_agree :
  forallb valid samples = true
  /\ forallb
       (fun p =>
          eqb (Float.add (fst p) (snd p)) (SFadd prec emax (fst p) (snd p))
          && eqb (Float.div (fst p) (snd p)) (SFdiv prec emax (fst p) (snd p))
          && Bool.eqb (leb (fst p) (snd p)) (SFleb (fst p) (snd p))
          && Bool.eqb (ltb (fst p) (snd p)) (SFltb (fst p) (snd p)))
       (list_prod samples samples) = true.
Proof. split; vm_compute; reflexivity. Qed.

(** [0.1 + 0.2] is [0.30000000000000004], [1 / 3] is [0.3333333333333333],
    and the left-to-right [sum([0.1, 0.2, 0.3])] is [0.6000000000000001]. *)
Example arithmetic_examples :
  Float.add (of_decimal 1 1) (of_decimal 2 1)
  = of_decimal 30000000000000004 17
  /\ Py.truediv (Py.PyInt 1) (Py.PyInt 3)
     = Ok (Py.PyFloat (of_decimal 3333333333333333 16))
  /\ Py.sum [Py.PyFloat (of_decimal 1 1); Py.PyFloat (of_decimal 2 1);
             Py.PyFloat (of_decimal 3 1)]
     = Py.PyFloat (of_decimal 6000000000000001 16)
  /\ Py.truediv (Py.PyFloat (of_Z 1)) (Py.PyFloat (S754_zero true))
     = Raise ZeroDivisionError.
Proof. repeat split; vm_compute; reflexivity. Qed.

(** [round(2.675, 2)] is [2.67], [round(0.125, 2)] is [0.12],
    [round(0.375, 2)] is [0.38], [round(1.005, 2)] is [1.0],
    [round(49999.995, 2)] is [50000.0], [round(-0.001, 2)] is [-0.0] and
    [round(1 / 3, 4)] is [0.3333]. *)
Example round_examples :
  Float.round (of_decimal 2675 3) 2 = of_decimal 267 2
  /\ Float.round (of_decimal 125 3) 2 = of_decimal 12 2
  /\ Float.round (of_decimal 375 3) 2 = of_decimal 38 2
  /\ Float.round (of_decimal 1005 3) 2 = of_Z 1
  /\ Float.round (of_decimal 49999995 3) 2 = of_Z 50000
  /\ Float.round (of_decimal (-1) 3) 2 = S754_zero true
  /\ Float.round (Float.div (of_Z 1) (of_Z 3)) 4 = of_decimal 3333 4.
Proof. repeat split; vm_compute; reflexivity. Qed.

Example format_examples :
  Py.format_03d 1 = "001"%string /\ Py.format_03d 20 = "020"%string
  /\ Py.format_03d 1234 = "1234"%string /\ Py.format_03d (-5) = "-05"%string.
Proof. repeat split; reflexivity. Qed.

(** For [ndigits >= 0] a binary64 number rounds to a binary64 number: the
    conversion back from the decimal never overflows. *)

Lemma rnd_max_float :
  (rnd (inject_Z max_float) == inject_Z max_float)%Q
  /\ (rnd (inject_Z (- max_float)) == inject_Z (- max_float))%Q
  /\ (inject_Z max_float < 2 ^ emax)%Q.
Proof. repeat split; vm_compute; reflexivity. Qed.

Lemma valid_finite_range (x : float) :
  valid x = true -> is_finite x = true ->
  (inject_Z (- max_float) <= F2Q x <= inject_Z max_float)%Q.
Proof.
  intros Hv Hf. destruct x as [s | s | | s m e]; try discriminate.
  - cbn [F2Q]. split; vm_compute; discriminate.
  - destruct (valid_finite_bounds s m e Hv) as [_ [He Hm]].
    assert (B : (0 <= inject_Z (Zpos m) * 2 ^ e <= inject_Z max_float)%Q).
    { split.
      - apply Qmult_le_0_compat.
        + change 0%Q with (inject_Z 0). rewrite <- Zle_Qle. lia.
        + apply Qlt_le_weak, pow2_pos.
      - unfold max_float. rewrite inject_Z_mult, (pow2_inject 971) by lia.
        apply Qle_trans with (inject_Z (2 ^ 53 - 1) * 2 ^ e)%Q.
        + apply Qmult_le_r; [apply pow2_pos |]. rewrite <- Zle_Qle. lia.
        + apply Qmult_le_l; [reflexivity | now apply pow2_le]. }
    rewrite F2Q_finite, inject_Z_opp. destruct s; cbn [sgn]; lra.
Qed.

Lemma round_finite (x : float) (nd : Z) :
  valid x = true -> is_finite x = true -> 0 <= nd <= 323 ->
  is_finite (Float.round x nd) = true.
Proof.
  intros Hv Hf Hnd.
  assert (Nn : is_nan x = false) by (destruct x; try discriminate; reflexivity).
  assert (Ni : x <> S754_infinity true) by (destruct x; discriminate).
  destruct (valid_finite_range x Hv Hf) as [L U].
  destruct rnd_max_float as [E1 [E2 E3]].
  pose proof (round_repr x nd Nn Ni Hnd) as Hr.
  rewrite (xval_finite x Hf) in Hr.
  assert (Lo : (inject_Z (- max_float) <= rnd (decimal nd (F2Q x)))%Q).
  { rewrite <- E2. apply rnd_mono.
    apply Qle_trans with (decimal nd (inject_Z (- max_float))).
    - rewrite decimal_Z by lia. apply Qle_refl.
    - now apply decimal_mono. }
  assert (Hi : (rnd (decimal nd (F2Q x)) <= inject_Z max_float)%Q).
  { rewrite <- E1. apply rnd_mono.
    apply Qle_trans with (decimal nd (inject_Z max_float)).
    - now apply decimal_mono.
    - rewrite decimal_Z by lia. apply Qle_refl. }
  rewrite inject_Z_opp in Lo.
  destruct Hr as [[_ H] | [[_ H] | [H _]]];
    [exfalso; lra | exfalso; lra | exact H].
Qed.

(** ** The generator *)

Section Generator.

Variable R : Random.
Variable clock : nat -> date.

Hypothesis Hchoices : choices_draws R.

Lemma generate_asset_ok (assets : list Asset) (st : rng R) (i : nat) :
  exists a st',
    generate_asset R clock (assets, st) i = Ok (assets ++ [a], st') /\
    drawn R clock i a.
Proof.
  unfold generate_asset.
  destruct (Hchoices Status statuses weights st) as [x [Hx Hin]];
    [discriminate | reflexivity |].
  destruct (choices R statuses weights st) as [dr st1]. cbn [fst] in Hx.
  subst dr. cbn [Py.index nth_error bind].
  destruct (randint R (-90) 180 st1) as [days st2] eqn:Ed.
  destruct (uniform R 1000 50000 st2) as [u st3] eqn:Eu.
  eexists. exists st3. split; [reflexivity |].
  repeat split; cbn [id status due_date nominal_value].
  - exact Hin.
  - exists st1. now rewrite Ed.
  - exists st2. now rewrite Eu.
Qed.

Lemma for_each_generate (idxs : list nat) (assets : list Asset) (st : rng R) :
  exists new st',
    for_each (generate_asset R clock) idxs (assets, st)
    = Ok (assets ++ new, st') /\
    Forall2 (drawn R clock) idxs new.
Proof.
  revert assets st. induction idxs as [| i idxs IH]; intros assets st.
  - exists [], st. rewrite app_nil_r. split; [reflexivity | constructor].
  - destruct (generate_asset_ok assets st i) as [a [st1 [E D]]].
    destruct (IH (assets ++ [a]) st1) as [new [st' [E' D']]].
    exists (a :: new), st'. cbn [for_each]. rewrite E. cbn [bind].
    rewrite E', <- app_assoc. split; [reflexivity | now constructor].
Qed.

Lemma get_assets_ok (st : rng R) :
  exists assets st',
    get_assets R clock st = Ok (assets, st') /\
    Forall2 (drawn R clock) (seq 0 20) assets.
Proof.
  unfold get_assets.
  destruct (for_each_generate (seq 0 20) [] (seed R 42 st))
    as [new [st' [E D]]].
  exists new, st'. split; assumption.
Qed.

End Generator.

Lemma Forall2_nth_error {A B} (P : A -> B -> Prop) (l : list A) (l' : list B)
      (i : nat) (b : B) :
  Forall2 P l l' -> nth_error l' i = Some b ->
  exists a, nth_error l i = Some a /\ P a b.
Proof.
  intros H. revert i. induction H as [| x y l l' Hxy _ IH]; intros i Hi.
  - destruct i; discriminate.
  - destruct i as [| i]; cbn in *.
    + injection Hi as <-. now exists x.
    + now apply IH.
Qed.

Lemma Forall2_map_eq {A B C} (f : A -> C) (g : B -> C) (l : list A)
      (l' : list B) :
  Forall2 (fun a b => g b = f a) l l' -> map g l' = map f l.
Proof. induction 1; cbn; congruence. Qed.

(** The toy generator keeps what the library documents. *)

Lemma toy_seed_resets : seed_resets toy_random.
Proof. intros a s s'. reflexivity. Defined.

Lemma toy_choices_draws : choices_draws toy_random.
Proof.
  intros A population w s Hne _. cbn [choices toy_random fst].
  assert (Hl : 0 < Z.of_nat (List.length population)).
  { destruct population; [contradiction | cbn; lia]. }
  pose proof (Z.mod_pos_bound s _ Hl) as Hb.
  destruct (nth_error population _) as [x |] eqn:E.
  - exists x. split; [reflexivity |]. eapply nth_error_In. exact E.
  - apply nth_error_None in E. lia.
Defined.

Lemma toy_randint_range : randint_range toy_random.
Proof.
  intros a b s H. cbn [randint toy_random fst].
  pose proof (Z.mod_pos_bound s (b - a + 1)). lia.
Defined.

Lemma toy_uniform_range : uniform_range toy_random.
Proof.
  intros a b s H. cbn [uniform toy_random fst].
  pose proof (Z.mod_pos_bound s (b - a + 1)).
  split; apply of_Z_mono; lia.
Defined.

Lemma scenario_nonneg :
  Forall (fun a => nonneg (nominal_value a)) (scenario "A" "B" "C" 1 2 3).
Proof. repeat constructor. Defined.

(** ** Further facts on binary64 *)

Lemma round_Q_comp (sz : bool) (q q' : Q) :
  (q == q')%Q -> round_Q sz q = round_Q sz q'.
Proof.
  intros E. unfold round_Q.
  assert (C : (q ?= 0)%Q = (q' ?= 0)%Q) by now rewrite E.
  rewrite <- C. destruct (q ?= 0)%Q eqn:D; qcompare.
  - reflexivity.
  - apply round_pos_comp; [lra | now rewrite E].
  - now apply round_pos_comp.
Qed.

(** Integers up to [2^53] are binary64 numbers. *)
Lemma rnd_Z_exact (n : Z) :
  0 <= n <= 2 ^ 53 -> (rnd (inject_Z n) == inject_Z n)%Q.
Proof.
  intros [L U].
  destruct (Z.eq_dec n 0) as [-> | N0]; [reflexivity |].
  destruct (Z.eq_dec n (2 ^ 53)) as [-> | N1]; [vm_compute; reflexivity |].
  assert (Hn : 0 < n) by lia.
  assert (Hq : (0 < inject_Z n)%Q) by (rewrite <- (Zlt_Qlt 0); exact Hn).
  assert (C : (inject_Z n ?= 0)%Q = Gt) by (qcompare; exact Hq).
  unfold rnd. rewrite C. unfold rnd_pos.
  pose proof (Z.log2_nonneg n) as K0.
  assert (K1 : Z.log2 n < 53) by (apply Z.log2_lt_pow2; lia).
  assert (Hl : Qlog2 (inject_Z n) = Z.log2 n)
    by (apply Qlog2_unique, Zlog2_Q; exact Hn).
  assert (He : exponent (inject_Z n) = Z.log2 n - 52)
    by (rewrite exponent_eq, Hl; lia).
  assert (Hs : (inject_Z n * 2 ^ (- (Z.log2 n - 52))
                == inject_Z (n * 2 ^ (52 - Z.log2 n)))%Q).
  { rewrite inject_Z_mult, pow2_inject by lia.
    now replace (- (Z.log2 n - 52)) with (52 - Z.log2 n) by ring. }
  unfold mantissa. rewrite He.
  rewrite (round_half_even_comp _ _ Hs), round_half_even_Z.
  rewrite inject_Z_mult, pow2_inject by lia.
  rewrite <- Qmult_assoc, <- pow2_add.
  replace (52 - Z.log2 n + (Z.log2 n - 52)) with 0 by ring.
  change (2 ^ 0)%Q with 1%Q. ring.
Qed.

Lemma pow2_53_lt_emax : (inject_Z (2 ^ 53) < 2 ^ emax)%Q.
Proof. rewrite pow2_inject by lia. apply pow2_lt. reflexivity. Qed.

Lemma rnd_between (q : Q) (A B : Z) :
  0 <= A -> B <= 2 ^ 53 -> (inject_Z A <= q <= inject_Z B)%Q ->
  (inject_Z A <= rnd q <= inject_Z B)%Q.
Proof.
  intros HA HB [L U].
  assert (A <= B) by (rewrite Zle_Qle; lra).
  split.
  - rewrite <- (rnd_Z_exact A) by lia. now apply rnd_mono.
  - rewrite <- (rnd_Z_exact B) by lia. now apply rnd_mono.
Qed.

Lemma repr_between (x : float) (v : Q) (A B : Z) :
  0 <= A -> B <= 2 ^ 53 -> repr x v -> (inject_Z A <= v <= inject_Z B)%Q ->
  is_finite x = true /\ (inject_Z A <= F2Q x <= inject_Z B)%Q.
Proof.
  intros HA HB Hr [L U].
  pose proof pow2_53_lt_emax as P.
  assert (PA : (0 <= inject_Z A)%Q) by (rewrite <- (Zle_Qle 0); exact HA).
  assert (PB : (inject_Z B <= inject_Z (2 ^ 53))%Q)
    by (rewrite <- Zle_Qle; exact HB).
  destruct Hr as [[_ H] | [[_ H] | [Hf [E _]]]]; try (exfalso; lra).
  split; [exact Hf | lra].
Qed.

Lemma of_Z_exact (n : Z) :
  0 <= n <= 2 ^ 53 ->
  is_finite (of_Z n) = true /\ (F2Q (of_Z n) == inject_Z n)%Q.
Proof.
  intros Hn.
  destruct (repr_between (of_Z n) (rnd (inject_Z n)) n n) as [Hf [L U]];
    try lia; [apply of_Z_repr | |].
  - rewrite rnd_Z_exact by lia. split; apply Qle_refl.
  - split; [exact Hf | now apply Qle_antisym].
Qed.

Lemma of_Z_valid (n : Z) : valid (of_Z n) = true.
Proof. apply round_Q_valid. Qed.

Lemma in_range_finite (lo hi : Z) (x : float) :
  0 <= lo <= hi -> hi <= 2 ^ 53 -> in_range lo hi x ->
  nonneg x /\ is_finite x = true /\
  (inject_Z lo <= F2Q x <= inject_Z hi)%Q.
Proof.
  intros Hlo Hhi [Hv [L U]].
  destruct (of_Z_exact lo) as [F1 E1]; [lia |].
  destruct (of_Z_exact hi) as [F2 E2]; [lia |].
  assert (Hf : is_finite x = true).
  { destruct x as [s | [|] | | s m e]; try reflexivity.
    - destruct (of_Z lo); try discriminate F1; discriminate L.
    - destruct (of_Z hi); try discriminate F2; discriminate U.
    - destruct (of_Z lo); discriminate L. }
  apply leb_finite in L; try assumption.
  apply leb_finite in U; try assumption.
  rewrite E1 in L. rewrite E2 in U.
  split; [| split; [exact Hf | split; assumption]].
  split; [exact Hv |]. apply leb_finite; try assumption; try reflexivity.
  change (F2Q pos_zero) with 0%Q.
  assert (0 <= inject_Z lo)%Q by (rewrite <- (Zle_Qle 0); lia). lra.
Qed.

Lemma ltb_finite (x y : float) :
  is_finite x = true -> is_finite y = true ->
  ltb x y = true <-> (F2Q x < F2Q y)%Q.
Proof.
  intros Hx Hy. rewrite Qlt_alt.
  destruct x as [sx | sx | | sx mx ex]; try discriminate;
    destruct y as [sy | sy | | sy my ey]; try discriminate;
    unfold ltb, compare;
    match goal with |- context [(?a ?= ?b)%Q] => destruct (a ?= b)%Q end;
    split; congruence.
Qed.

Lemma leb_of_Z_l (A : Z) (y : float) :
  0 <= A <= 2 ^ 53 -> is_finite y = true -> (inject_Z A <= F2Q y)%Q ->
  leb (of_Z A) y = true.
Proof.
  intros HA Hf H. destruct (of_Z_exact A HA) as [F E].
  apply leb_finite; try assumption. now rewrite E.
Qed.

Lemma leb_of_Z_r (B : Z) (y : float) :
  0 <= B <= 2 ^ 53 -> is_finite y = true -> (F2Q y <= inject_Z B)%Q ->
  leb y (of_Z B) = true.
Proof.
  intros HB Hf H. destruct (of_Z_exact B HB) as [F E].
  apply leb_finite; try assumption. now rewrite E.
Qed.

Lemma round_between (t : float) (nd A B : Z) :
  is_finite t = true -> 0 <= A -> B <= 2 ^ 53 -> 0 <= nd <= 323 ->
  (inject_Z A <= F2Q t <= inject_Z B)%Q ->
  is_finite (Float.round t nd) = true /\
  (inject_Z A <= F2Q (Float.round t nd) <= inject_Z B)%Q.
Proof.
  intros Hf HA HB Hnd [L U].
  assert (Nn : is_nan t = false) by (destruct t; try discriminate; reflexivity).
  assert (Ni : t <> S754_infinity true) by (destruct t; discriminate).
  pose proof (round_repr t nd Nn Ni Hnd) as Hr.
  rewrite (xval_finite t Hf) in Hr.
  apply (repr_between _ _ A B HA HB Hr).
  apply rnd_between; try assumption. split.
  - apply Qle_trans with (decimal nd (inject_Z A)).
    + rewrite decimal_Z by lia. apply Qle_refl.
    + now apply decimal_mono.
  - apply Qle_trans with (decimal nd (inject_Z B)).
    + now apply decimal_mono.
    + rewrite decimal_Z by lia. apply Qle_refl.
Qed.

Lemma fold_add_between (lo hi : Z) (l : list float) :
  0 <= lo <= hi -> Forall (in_range lo hi) l ->
  forall (acc : float) (A B : Z),
    0 <= A -> B + Z.of_nat (List.length l) * hi <= 2 ^ 53 ->
    nonneg acc -> is_finite acc = true ->
    (inject_Z A <= F2Q acc <= inject_Z B)%Q ->
    nonneg (fold_left Float.add l acc) /\
    is_finite (fold_left Float.add l acc) = true /\
    (inject_Z (A + Z.of_nat (List.length l) * lo)
     <= F2Q (fold_left Float.add l acc)
     <= inject_Z (B + Z.of_nat (List.length l) * hi))%Q.
Proof.
  intros Hlo Hl. induction Hl as [| x l Hx Hl IH]; intros acc A B HA HB Ga Fa Ba.
  - cbn [fold_left List.length Z.of_nat]. rewrite !Z.mul_0_l, !Z.add_0_r.
    split; [exact Ga | split; [exact Fa | exact Ba]].
  - cbn [fold_left]. cbn [List.length] in *. rewrite Nat2Z.inj_succ in *.
    assert (HAB : A <= B) by (rewrite Zle_Qle; lra).
    assert (Hn : 0 <= Z.of_nat (List.length l) * hi)
      by (apply Z.mul_nonneg_nonneg; lia).
    destruct (in_range_finite lo hi x Hlo ltac:(lia) Hx) as [Gx [Fx Bx]].
    pose proof (add_repr acc x Ga Gx) as Hr.
    rewrite (xval_finite acc Fa), (xval_finite x Fx) in Hr.
    destruct (repr_between _ _ (A + lo) (B + hi) ltac:(lia) ltac:(lia) Hr)
      as [Fs Bs].
    { apply rnd_between; try lia. rewrite !inject_Z_plus. lra. }
    destruct (IH (Float.add acc x) (A + lo) (B + hi)) as [G [F Bd]];
      try assumption; try lia.
    + now apply add_nonneg.
    + split; [exact G | split; [exact F |]].
      replace (A + Z.succ (Z.of_nat (List.length l)) * lo)
        with (A + lo + Z.of_nat (List.length l) * lo) by ring.
      replace (B + Z.succ (Z.of_nat (List.length l)) * hi)
        with (B + hi + Z.of_nat (List.length l) * hi) by ring.
      exact Bd.
Qed.

(** ** Further facts on [calculate_insights] *)

Lemma total_between (lo hi : Z) (assets : list Asset) :
  0 <= lo <= hi -> Z.of_nat (List.length assets) * hi <= 2 ^ 53 ->
  Forall (fun a => in_range lo hi (nominal_value a)) assets ->
  nonneg (Py.to_float (Py.sum (values assets))) /\
  is_finite (Py.to_float (Py.sum (values assets))) = true /\
  (inject_Z (Z.of_nat (List.length assets) * lo)
   <= F2Q (Py.to_float (Py.sum (values assets)))
   <= inject_Z (Z.of_nat (List.length assets) * hi))%Q.
Proof.
  intros Hlo Hn Hl. rewrite sum_values.
  rewrite <- (length_map nominal_value assets) in *.
  apply (fold_add_between lo hi _ Hlo) with (A := 0) (B := 0);
    try lia; try apply nonneg_pos_zero; try reflexivity.
  - now apply Forall_map.
  - split; apply Qle_refl.
Qed.

Lemma in_range_nonneg (lo hi : Z) (assets : list Asset) :
  0 <= lo <= hi -> hi <= 2 ^ 53 ->
  Forall (fun a => in_range lo hi (nominal_value a)) assets ->
  Forall (fun a => nonneg (nominal_value a)) assets.
Proof.
  intros Hlo Hhi. apply Forall_impl. intros a Ha.
  now apply (in_range_finite lo hi).
Qed.

Lemma default_rate_unit (assets : list Asset) :
  in_unit_interval (default_rate_of assets) = true.
Proof.
  unfold default_rate_of. destruct assets as [| a l]; [reflexivity |].
  destruct (truediv_len (List.length (with_status defaulted (a :: l)))
                        (List.length (a :: l))) as [_ [Hf Hu]];
    [apply with_status_length | cbn; lia |].
  apply round_unit; [exact Hf | exact Hu | lia].
Qed.

Lemma collection_rate_unit (assets : list Asset) :
  Forall (fun a => nonneg (nominal_value a)) assets ->
  is_finite (Py.to_float (Py.sum (values assets))) = true ->
  ltb pos_zero (Py.to_float (Py.sum (values assets))) = true ->
  in_unit_interval (collection_rate_of assets) = true.
Proof.
  intros Hn Hf Hpos. unfold collection_rate_of.
  destruct (Py.truthy (Py.sum (values assets))); [| reflexivity].
  destruct (div_unit
              (Py.to_float (Py.sum (values (with_status paid assets))))
              (Py.to_float (Py.sum (values assets)))) as [Df Du];
    try assumption.
  - apply sum_values_nonneg. now apply Forall_with_status.
  - now apply sum_values_nonneg.
  - now apply sum_with_status_le.
  - apply round_unit; [exact Df | exact Du | lia].
Qed.

Lemma outstanding_le_total (assets : list Asset) :
  Forall (fun a => nonneg (nominal_value a)) assets ->
  leb pos_zero
      (Py.to_float
         (Py.round (Py.sum (values (with_status active assets))) 2)) = true /\
  leb (Py.to_float
         (Py.round (Py.sum (values (with_status active assets))) 2))
      (Py.to_float (Py.round (Py.sum (values assets)) 2)) = true.
Proof.
  intros Hn.
  pose proof (sum_values_nonneg _ (Forall_with_status _ active _ Hn)) as Ga.
  pose proof (sum_values_nonneg _ Hn) as Gt.
  rewrite !round_sum by lia. split.
  - change pos_zero with (Float.round pos_zero 2) at 1.
    apply round_mono; [apply nonneg_pos_zero | exact Ga | lia | apply Ga].
  - apply round_mono; [exact Ga | exact Gt | lia |].
    now apply sum_with_status_le.
Qed.

Lemma total_rounded_between (lo hi : Z) (assets : list Asset) :
  0 <= lo <= hi -> Z.of_nat (List.length assets) * hi <= 2 ^ 53 ->
  Forall (fun a => in_range lo hi (nominal_value a)) assets ->
  leb (of_Z (Z.of_nat (List.length assets) * lo))
      (Py.to_float (Py.round (Py.sum (values assets)) 2)) = true /\
  leb (Py.to_float (Py.round (Py.sum (values assets)) 2))
      (of_Z (Z.of_nat (List.length assets) * hi)) = true.
Proof.
  intros Hlo Hn Hl.
  destruct (total_between lo hi assets Hlo Hn Hl) as [_ [Hf Hb]].
  assert (H0 : 0 <= Z.of_nat (List.length assets) * lo)
    by (apply Z.mul_nonneg_nonneg; lia).
  assert (H1 : Z.of_nat (List.length assets) * lo
               <= Z.of_nat (List.length assets) * hi)
    by (apply Z.mul_le_mono_nonneg_l; lia).
  rewrite round_sum by lia.
  destruct (round_between _ 2 _ _ Hf H0 Hn ltac:(lia) Hb) as [Rf [L U]].
  split; [apply leb_of_Z_l | apply leb_of_Z_r]; try assumption; lia.
Qed.

Lemma default_rate_of_same (l1 l2 : list Asset) :
  Forall2 same_value_and_status l1 l2 ->
  default_rate_of l1 = default_rate_of l2.
Proof.
  intros H. unfold default_rate_of.
  rewrite (Forall2_length (same_with_status defaulted l1 l2 H)).
  rewrite (Forall2_length H).
  destruct H; reflexivity.
Qed.

Lemma collection_rate_of_same (l1 l2 : list Asset) :
  Forall2 same_value_and_status l1 l2 ->
  collection_rate_of l1 = collection_rate_of l2.
Proof.
  intros H. unfold collection_rate_of.
  now rewrite (same_values _ _ H),
              (same_values _ _ (same_with_status paid l1 l2 H)).
Qed.

Lemma with_status_none (s : Status) (assets : list Asset) :
  Forall (fun a => status a <> s) assets -> with_status s assets = [].
Proof.
  induction 1 as [| a l Ha _ IH]; [reflexivity |].
  unfold with_status in *. cbn [filter]. rewrite IH.
  destruct (status a), s; try reflexivity; contradiction.
Qed.

Lemma with_status_all (s : Status) (assets : list Asset) :
  Forall (fun a => status a = s) assets -> with_status s assets = assets.
Proof.
  induction 1 as [| a l Ha _ IH]; [reflexivity |].
  unfold with_status in *. cbn [filter]. rewrite IH, Ha.
  destruct s; reflexivity.
Qed.

Lemma with_status_permutation (s : Status) (l1 l2 : list Asset) :
  Permutation l1 l2 ->
  List.length (with_status s l1) = List.length (with_status s l2).
Proof.
  unfold with_status.
  induction 1 as [| a l1 l2 _ IH | a b l | l1 l2 l3 _ IH1 _ IH2].
  - reflexivity.
  - cbn [filter]. destruct (Status_eqb (status a) s); cbn; congruence.
  - cbn [filter].
    destruct (Status_eqb (status a) s), (Status_eqb (status b) s);
      reflexivity.
  - congruence.
Qed.

Lemma add_nan_l (x : float) : Float.add S754_nan x = S754_nan.
Proof. reflexivity. Qed.

Lemma add_nan_r (x : float) : Float.add x S754_nan = S754_nan.
Proof. destruct x; reflexivity. Qed.

Lemma fold_add_nan (l : list float) : fold_left Float.add l S754_nan = S754_nan.
Proof. induction l as [| x l IH]; [reflexivity | exact IH]. Qed.

Lemma fold_add_in_nan (l : list float) (acc : float) :
  In S754_nan l -> fold_left Float.add l acc = S754_nan.
Proof.
  revert acc. induction l as [| x l IH]; intros acc H; [contradiction |].
  cbn [fold_left]. destruct H as [-> | H].
  - rewrite add_nan_r. apply fold_add_nan.
  - now apply IH.
Qed.

(** ** Further facts on the generator *)

Section Clocks.

Variable R : Random.
Variables c1 c2 : nat -> date.
Variable Q : Asset -> Asset -> Prop.

Hypothesis HQ : forall i a b, same_draws c1 c2 i a b -> Q a b.

Lemma generate_asset_agree (acc1 acc2 : list Asset) (st : rng R) (i : nat) :
  Forall2 Q acc1 acc2 ->
  runs_agree Q (generate_asset R c1 (acc1, st) i)
               (generate_asset R c2 (acc2, st) i).
Proof.
  intros H. unfold generate_asset.
  destruct (choices R statuses weights st) as [dr st1].
  destruct (Py.index dr 0) as [x | e]; cbn [bind]; [| reflexivity].
  destruct (randint R (-90) 180 st1) as [days st2].
  destruct (uniform R 1000 50000 st2) as [u st3].
  split; [| reflexivity].
  apply Forall2_app; [exact H |]. constructor; [| constructor].
  apply (HQ i). repeat split; cbn [id nominal_value status due_date]. lia.
Qed.

Lemma for_each_agree (idxs : list nat) (acc1 acc2 : list Asset) (st : rng R) :
  Forall2 Q acc1 acc2 ->
  runs_agree Q (for_each (generate_asset R c1) idxs (acc1, st))
               (for_each (generate_asset R c2) idxs (acc2, st)).
Proof.
  revert acc1 acc2 st. induction idxs as [| i idxs IH]; intros acc1 acc2 st H.
  - split; [exact H | reflexivity].
  - cbn [for_each]. pose proof (generate_asset_agree acc1 acc2 st i H) as G.
    destruct (generate_asset R c1 (acc1, st) i) as [[l1 s1] | e1];
      destruct (generate_asset R c2 (acc2, st) i) as [[l2 s2] | e2];
      cbn [bind]; try contradiction.
    + destruct G as [G ->]. now apply IH.
    + exact G.
Qed.

Lemma get_assets_agree (st : rng R) :
  runs_agree Q (get_assets R c1 st) (get_assets R c2 st).
Proof. unfold get_assets. apply for_each_agree. constructor. Qed.

End Clocks.

Lemma Forall2_right {A B} (P : B -> Prop) (Q : A -> B -> Prop)
      (l : list A) (l' : list B) :
  (forall a b, Q a b -> P b) -> Forall2 Q l l' -> Forall P l'.
Proof. intros H. induction 1; constructor; eauto. Qed.

Lemma drawn_in_range (R : Random) (clock : nat -> date) (i : nat) (a : Asset) :
  uniform_range R -> drawn R clock i a ->
  in_range 1000 50000 (nominal_value a).
Proof.
  intros Hu [_ [_ [_ [st Hv]]]].
  destruct (Hu 1000 50000 st) as [L U]; [lia |].
  assert (Fu : is_finite (fst (uniform R 1000 50000 st)) = true).
  { destruct (fst (uniform R 1000 50000 st)) as [| [|] | |];
      try reflexivity; discriminate. }
  rewrite Hv. split; [| split].
  - revert Fu. destruct (fst (uniform R 1000 50000 st)); intros Fu;
      try discriminate; try reflexivity. apply round_Q_valid.
  - change (of_Z 1000) with (Float.round (of_Z 1000) 2).
    apply round_mono_finite; [reflexivity | exact Fu | lia | exact L].
  - change (of_Z 50000) with (Float.round (of_Z 50000) 2).
    apply round_mono_finite; [exact Fu | reflexivity | lia | exact U].
Qed.

Lemma served_portfolio (R : Random) (clock : nat -> date) (st : rng R) :
  choices_draws R -> uniform_range R ->
  exists assets st',
    get_assets R clock st = Ok (assets, st') /\
    List.length assets = 20%nat /\
    Forall (fun a => in_range 1000 50000 (nominal_value a)) assets.
Proof.
  intros Hc Hu. destruct (get_assets_ok R clock Hc st) as [assets [st' [E D]]].
  exists assets, st'. split; [exact E |]. split.
  - now rewrite <- (Forall2_length D), length_seq.
  - apply (Forall2_right _ _ _ _ (fun i a => drawn_in_range R clock i a Hu) D).
Qed.

(** ** app/main.py *)

Lemma list_insights_eq (R : Random) (clock : nat -> date) (st st' : rng R)
      (assets : list Asset) :
  get_assets R clock st = Ok (assets, st') ->
  list_insights R clock st
  = Ok (insights
          (Py.to_float (Py.round (Py.sum (values assets)) 2))
          (default_rate_of assets)
          (Py.to_float
             (Py.round (Py.sum (values (with_status active assets))) 2))
          (collection_rate_of assets), st').
Proof.
  intros E. unfold list_insights. rewrite E. cbn [bind fst snd].
  now rewrite calculate_insights_eq.
Qed.

Lemma calculate_insights_same (l1 l2 : list Asset) :
  Forall2 same_value_and_status l1 l2 ->
  calculate_insights l1 = calculate_insights l2.
Proof.
  intros H. rewrite !calculate_insights_eq.
  now rewrite (same_values _ _ H),
              (same_values _ _ (same_with_status active l1 l2 H)),
              (default_rate_of_same _ _ H), (collection_rate_of_same _ _ H).
Qed.

Lemma default_rate_of_permutation (l1 l2 : list Asset) :
  Permutation l1 l2 -> default_rate_of l1 = default_rate_of l2.
Proof.
  intros P. pose proof (Permutation_length P) as L.
  pose proof (with_status_permutation defaulted l1 l2 P) as W.
  unfold default_rate_of.
  destruct l1 as [| a l1], l2 as [| b l2]; try discriminate; [reflexivity |].
  now rewrite W, L.
Qed.

Lemma Qabs_finite_pos (s : bool) (m : positive) (e : Z) :
  (0 < Qabs (F2Q (S754_finite s m e)))%Q.
Proof.
  assert (Hq : (0 < inject_Z (Zpos m) * 2 ^ e)%Q).
  { apply Qmult_lt_0_compat; [now rewrite <- (Zlt_Qlt 0) | apply pow2_pos]. }
  rewrite (F2Q_finite s m e). destruct s; cbn [sgn].
  - rewrite Qabs_opp, Qabs_pos; lra.
  - rewrite Qabs_pos; lra.
Qed.

Lemma div_self (s : bool) (m : positive) (e : Z) :
  Float.round (Float.div (S754_finite s m e) (S754_finite s m e)) 4 = of_Z 1.
Proof.
  cbn [Float.div]. rewrite xorb_nilpotent.
  pose proof (Qabs_finite_pos s m e) as P.
  set (x := Qabs (F2Q (S754_finite s m e))) in *.
  assert (E : (x / x == 1)%Q) by (field; lra).
  rewrite (round_pos_comp false (x / x) 1); [| now rewrite E | exact E].
  vm_compute. reflexivity.
Qed.

Lemma div_zero_by (t : float) :
  is_nan t = false -> is_zero t = false ->
  is_zero (Float.round (Float.div pos_zero t) 4) = true.
Proof. destruct t as [s | s | | s m e]; try discriminate; reflexivity. Qed.

Lemma get_assets_same_values (R : Random) (c1 c2 : nat -> date)
      (st1 st2 : rng R) :
  seed_resets R ->
  runs_agree same_value_and_status (get_assets R c1 st1) (get_assets R c2 st2).
Proof.
  intros Hs.
  assert (E : get_assets R c2 st2 = get_assets R c2 st1)
    by (unfold get_assets; now rewrite (Hs 42 st2 st1)).
  rewrite E. apply get_assets_agree.
  intros i a b [_ [Hv [Hst _]]]. split; congruence.
Qed.

(** Rounding to decimals twice. *)

Lemma round_half_even_error (z : Q) :
  (inject_Z (round_half_even z) - (1 # 2) <= z
   <= inject_Z (round_half_even z) + (1 # 2))%Q.
Proof.
  pose proof (Qfloor_le z) as L. pose proof (Qlt_floor z) as U.
  rewrite inject_Z_plus in U. change (inject_Z 1) with 1%Q in U.
  unfold round_half_even.
  destruct (z - inject_Z (Qfloor z) ?= 1 # 2)%Q eqn:C; qcompare.
  - destruct (Z.even (Qfloor z)); [lra |].
    rewrite inject_Z_plus. change (inject_Z 1) with 1%Q. lra.
  - lra.
  - rewrite inject_Z_plus. change (inject_Z 1) with 1%Q. lra.
Qed.

Lemma round_half_even_near (z : Q) (k : Z) :
  (inject_Z k - (1 # 2) < z < inject_Z k + (1 # 2))%Q ->
  round_half_even z = k.
Proof.
  intros [L U].
  pose proof (Qfloor_le z) as Fl. pose proof (Qlt_floor z) as Fu.
  rewrite inject_Z_plus in Fu. change (inject_Z 1) with 1%Q in Fu.
  assert (H1 : Qfloor z < k + 1).
  { rewrite Zlt_Qlt, inject_Z_plus. change (inject_Z 1) with 1%Q. lra. }
  assert (H2 : k < Qfloor z + 2).
  { rewrite Zlt_Qlt, inject_Z_plus. change (inject_Z 2) with 2%Q. lra. }
  unfold round_half_even.
  destruct (Z.eq_dec (Qfloor z) k) as [E | NE].
  - rewrite E in *.
    assert (C : (z - inject_Z k ?= 1 # 2)%Q = Lt) by (rewrite <- Qlt_alt; lra).
    now rewrite C.
  - assert (E : Qfloor z = k + -1) by lia. rewrite E in *.
    rewrite inject_Z_plus in *. change (inject_Z (-1)) with (-1)%Q in *.
    assert (C : (z - (inject_Z k + -1) ?= 1 # 2)%Q = Gt)
      by (rewrite <- Qgt_alt; lra).
    rewrite C. lia.
Qed.

Lemma rnd_pos_error (q : Q) :
  (0 < q)%Q ->
  (rnd_pos q - 2 ^ exponent q * (1 # 2) <= q
   <= rnd_pos q + 2 ^ exponent q * (1 # 2))%Q.
Proof.
  intros Hq. unfold rnd_pos, mantissa.
  destruct (round_half_even_error (q * 2 ^ (- exponent q))) as [L U].
  pose proof (pow2_pos (exponent q)) as Pp.
  pose proof (pow2_cancel (exponent q)) as Pc.
  set (m := inject_Z (round_half_even (q * 2 ^ (- exponent q)))) in *.
  set (p := (2 ^ exponent q)%Q) in *. set (p' := (2 ^ (- exponent q))%Q) in *.
  clearbody m p p'.
  assert (E : (q * p' * p == q)%Q) by (rewrite <- Qmult_assoc, Pc; ring).
  assert (L' : ((m - (1 # 2)) * p <= q * p' * p)%Q)
    by (apply Qmult_le_r; assumption).
  assert (U' : (q * p' * p <= (m + (1 # 2)) * p)%Q)
    by (apply Qmult_le_r; assumption).
  rewrite E in L', U'.
  assert (E1 : ((m - (1 # 2)) * p == m * p - p * (1 # 2))%Q) by ring.
  assert (E2 : ((m + (1 # 2)) * p == m * p + p * (1 # 2))%Q) by ring.
  rewrite E1 in L'. rewrite E2 in U'. split; assumption.
Qed.

Lemma pow10_le (a b : Z) : a <= b -> (10 ^ a <= 10 ^ b)%Q.
Proof. intros H. apply Qpower_le_compat_l; [exact H | discriminate]. Qed.

Lemma exponent_small (q : Q) (nd : Z) :
  (0 < q)%Q -> 0 <= nd <= 323 -> (q * 10 ^ nd <= inject_Z (2 ^ 51))%Q ->
  (2 ^ exponent q * 10 ^ nd <= 1 # 2)%Q.
Proof.
  intros Hq Hnd H.
  pose proof (pow10_pos nd) as Pt.
  destruct (Qlog2_spec q Hq) as [Lq _].
  rewrite exponent_eq.
  destruct (Z.max_spec (Qlog2 q - 52) (-1074)) as [[_ ->] | [_ ->]].
  - apply Qle_trans with (2 ^ (-1074) * 10 ^ 323)%Q.
    + apply Qmult_le_l; [apply pow2_pos | apply pow10_le; lia].
    + vm_compute. discriminate.
  - replace (Qlog2 q - 52) with (Qlog2 q + -52) by lia. rewrite pow2_add.
    set (l := (2 ^ Qlog2 q)%Q) in *. set (T := (10 ^ nd)%Q) in *.
    clearbody l T.
    assert (A : (l * T <= q * T)%Q) by (apply Qmult_le_r; assumption).
    assert (B : (l * 2 ^ (-52) * T == l * T * (1 # 4503599627370496))%Q).
    { change (2 ^ (-52))%Q with (1 # 4503599627370496)%Q. ring. }
    rewrite B.
    apply Qle_trans
      with (inject_Z (2 ^ 51) * (1 # 4503599627370496))%Q.
    + apply Qmult_le_r; [reflexivity | lra].
    + vm_compute. discriminate.
Qed.

Lemma round_round (x : float) (nd : Z) :
  is_finite x = true -> 0 <= nd <= 323 ->
  (0 <= F2Q x)%Q -> (F2Q x * 10 ^ nd <= inject_Z (2 ^ 51))%Q ->
  Float.round (Float.round x nd) nd = Float.round x nd.
Proof.
  intros Hf Hnd L U.
  destruct x as [s | s | | s m e]; try discriminate; [reflexivity |].
  pose proof (pow10_pos nd) as Pt.
  set (x := S754_finite s m e) in *.
  set (k := round_half_even (F2Q x * 10 ^ nd)).
  assert (E : Float.round x nd = round_Q s (inject_Z k / 10 ^ nd)).
  { unfold Float.round, x.
    destruct (Z.gtb_spec nd 323); [lia |].
    destruct (Z.ltb_spec nd (-308)); [lia | reflexivity]. }
  rewrite E.
  assert (K0 : 0 <= k).
  { apply round_half_even_ge_Z. change (inject_Z 0) with 0%Q.
    apply Qmult_le_0_compat; [exact L | lra]. }
  assert (K1 : k <= 2 ^ 51) by (apply round_half_even_le_Z; exact U).
  clearbody k. clear E L U Hf. clearbody x.
  destruct (Z.eq_dec k 0) as [-> | N0].
  - rewrite (round_Q_comp s _ 0%Q); [reflexivity |].
    unfold Qdiv. apply Qmult_0_l.
  - set (q := (inject_Z k / 10 ^ nd)%Q).
    assert (Hk : (0 < inject_Z k)%Q) by (rewrite <- (Zlt_Qlt 0); lia).
    assert (Hq : (0 < q)%Q).
    { unfold q, Qdiv. apply Qmult_lt_0_compat; [exact Hk |].
      now apply Qinv_lt_0_compat. }
    assert (Eq : (q * 10 ^ nd == inject_Z k)%Q) by (unfold q; field; lra).
    assert (C : (q ?= 0)%Q = Gt) by (rewrite <- Qgt_alt; exact Hq).
    destruct (round_Q s q) as [s' | s' | | s' m' e'] eqn:Ey; try reflexivity.
    pose proof (round_Q_repr s q) as Hr. rewrite Ey in Hr.
    destruct Hr as [[D _] | [[D _] | [_ [Ev _]]]]; try discriminate.
    unfold rnd in Ev. rewrite C in Ev.
    assert (K : round_half_even (F2Q (S754_finite s' m' e') * 10 ^ nd) = k).
    { apply round_half_even_near.
      destruct (rnd_pos_error q Hq) as [El Eu].
      assert (Es : (2 ^ exponent q * 10 ^ nd <= 1 # 2)%Q).
      { apply exponent_small; [exact Hq | exact Hnd |].
        rewrite Eq, <- Zle_Qle. exact K1. }
      pose proof (pow2_pos (exponent q)) as Pp.
      rewrite Ev.
      set (r := rnd_pos q) in *. set (p := (2 ^ exponent q)%Q) in *.
      set (T := (10 ^ nd)%Q) in *. clearbody r p T.
      assert (A : ((r - p * (1 # 2)) * T <= q * T)%Q)
        by (apply Qmult_le_r; assumption).
      assert (B : (q * T <= (r + p * (1 # 2)) * T)%Q)
        by (apply Qmult_le_r; assumption).
      assert (A' : ((r - p * (1 # 2)) * T == r * T - p * T * (1 # 2))%Q)
        by ring.
      assert (B' : ((r + p * (1 # 2)) * T == r * T + p * T * (1 # 2))%Q)
        by ring.
      rewrite A' in A. rewrite B' in B. rewrite Eq in A, B.
      assert (P0 : (0 < p * T)%Q) by (apply Qmult_lt_0_compat; assumption).
      set (pT := (p * T)%Q) in *. set (rT := (r * T)%Q) in *.
      clearbody pT rT. split; lra. }
    unfold Float.round.
    destruct (Z.gtb_spec nd 323); [lia |].
    destruct (Z.ltb_spec nd (-308)); [lia |].
    rewrite K. fold q. rewrite <- Ey. unfold round_Q. now rewrite C.
Qed.

Lemma round_round_below (x : float) (nd B : Z) :
  is_finite x = true -> 0 <= nd <= 323 -> B * 10 ^ nd <= 2 ^ 51 ->
  (0 <= F2Q x <= inject_Z B)%Q ->
  Float.round (Float.round x nd) nd = Float.round x nd.
Proof.
  intros Hf Hnd HB [L U]. apply round_round; try assumption.
  pose proof (pow10_pos nd) as Pt.
  apply Qle_trans with (inject_Z B * 10 ^ nd)%Q.
  - apply Qmult_le_r; assumption.
  - assert (E : (10 ^ nd == inject_Z (10 ^ nd))%Q).
    { symmetry. apply (Zpower_Qpower 10 nd). lia. }
    rewrite E, <- inject_Z_mult, <- Zle_Qle. exact HB.
Qed.

(** The decimals of the values served. *)

Lemma total_two_decimals (hi : Z) (assets : list Asset) :
  0 <= hi -> Z.of_nat (List.length assets) * hi * 100 <= 2 ^ 51 ->
  Forall (fun a => in_range 0 hi (nominal_value a)) assets ->
  Float.round (Py.to_float (Py.round (Py.sum (values assets)) 2)) 2
  = Py.to_float (Py.round (Py.sum (values assets)) 2).
Proof.
  intros Hhi Hn Hr.
  destruct (total_between 0 hi assets) as [_ [Hf [L U]]];
    [lia | lia | exact Hr |].
  rewrite round_sum by lia.
  apply (round_round_below _ 2 (Z.of_nat (List.length assets) * hi));
    [exact Hf | lia | exact Hn |].
  split; [| exact U].
  rewrite Z.mul_0_r in L. exact L.
Qed.

Lemma default_rate_four_decimals (assets : list Asset) :
  Float.round (default_rate_of assets) 4 = default_rate_of assets.
Proof.
  unfold default_rate_of. destruct assets as [| a l]; [reflexivity |].
  destruct (truediv_len (List.length (with_status defaulted (a :: l)))
                        (List.length (a :: l))) as [_ [Hf Hu]];
    [apply with_status_length | cbn; lia |].
  apply (round_round_below _ 4 1); [exact Hf | lia | cbn; lia | exact Hu].
Qed.

Lemma nonneg_positive (t : float) :
  nonneg t -> is_finite t = true -> is_zero t = false ->
  ltb pos_zero t = true.
Proof.
  intros Gt Hf Hz.
  destruct (nonneg_cases t Gt) as [[s ->] | [-> | [m [e ->]]]];
    try discriminate.
  apply ltb_finite; [reflexivity | reflexivity |].
  rewrite (F2Q_finite false m e). cbn [F2Q pos_zero sgn].
  apply Qmult_lt_0_compat; [now rewrite <- (Zlt_Qlt 0) | apply pow2_pos].
Qed.

Lemma collection_rate_four_decimals (assets : list Asset) :
  Forall (fun a => nonneg (nominal_value a)) assets ->
  is_finite (Py.to_float (Py.sum (values assets))) = true ->
  Float.round (collection_rate_of assets) 4 = collection_rate_of assets.
Proof.
  intros Hn Hf. unfold collection_rate_of.
  destruct (Py.truthy (Py.sum (values assets))) eqn:T; [| reflexivity].
  destruct (truthy_sum assets T) as [t [E Z]].
  pose proof (sum_values_nonneg assets Hn) as Gt.
  pose proof (sum_with_status_le paid assets Hn) as Hle.
  pose proof (sum_values_nonneg _ (Forall_with_status _ paid _ Hn)) as Gp.
  rewrite E in *. cbn [Py.to_float] in *.
  destruct (div_unit _ t Gp Gt Hf (nonneg_positive t Gt Hf Z) Hle) as [Df Du].
  apply (round_round_below _ 4 1); [exact Df | lia | cbn; lia | exact Du].
Qed.

(** ** Facts on sums below 2^20 *)

Lemma neg_valid (x : float) : valid (neg x) = valid x.
Proof. destruct x; reflexivity. Qed.

Lemma neg_finite (x : float) : is_finite (neg x) = is_finite x.
Proof. destruct x; reflexivity. Qed.

Lemma F2Q_neg (x : float) : (F2Q (neg x) == - F2Q x)%Q.
Proof.
  destruct x as [s | s | | s m e]; try reflexivity.
  destruct s; cbn [neg negb F2Q]; ring.
Qed.

Lemma eps_pos : (0 < eps)%Q.
Proof. reflexivity. Qed.

Lemma exponent_below (q : Q) :
  (0 < q <= 2097152)%Q -> (2 ^ exponent q * (1 # 2) <= eps)%Q.
Proof.
  intros [Hq H].
  assert (E : exponent q <= -31).
  { pose proof (exponent_mono q 2097152 Hq H) as Hm.
    assert (E21 : exponent 2097152 = -31) by (vm_compute; reflexivity).
    lia. }
  apply Qle_trans with (2 ^ (-31) * (1 # 2))%Q.
  - apply Qmult_le_r; [reflexivity | now apply pow2_le].
  - vm_compute. discriminate.
Qed.

Lemma rnd_error (q : Q) :
  (- (2097152) <= q <= 2097152)%Q -> (q - eps <= rnd q <= q + eps)%Q.
Proof.
  intros [L U]. pose proof eps_pos as He. unfold rnd.
  destruct (q ?= 0)%Q eqn:C; qcompare.
  - lra.
  - assert (Hq : (0 < - q)%Q) by lra.
    destruct (rnd_pos_error (- q) Hq) as [A B].
    assert (E : (2 ^ exponent (- q) * (1 # 2) <= eps)%Q)
      by (apply exponent_below; lra).
    set (r := rnd_pos (- q)) in *. set (p := (2 ^ exponent (- q))%Q) in *.
    clearbody r p. lra.
  - destruct (rnd_pos_error q C) as [A B].
    assert (E : (2 ^ exponent q * (1 # 2) <= eps)%Q)
      by (apply exponent_below; lra).
    set (r := rnd_pos q) in *. set (p := (2 ^ exponent q)%Q) in *.
    clearbody r p. lra.
Qed.

Lemma add_error (a b : float) :
  valid a = true -> valid b = true ->
  is_finite a = true -> is_finite b = true ->
  (- (2097152) <= F2Q a + F2Q b <= 2097152)%Q ->
  valid (Float.add a b) = true /\ is_finite (Float.add a b) = true /\
  (F2Q a + F2Q b - eps <= F2Q (Float.add a b) <= F2Q a + F2Q b + eps)%Q.
Proof.
  intros Va Vb Fa Fb H. pose proof eps_pos as He.
  split; [now apply add_valid |].
  destruct a as [sa | sa | | sa ma ea]; try discriminate;
    destruct b as [sb | sb | | sb mb eb]; try discriminate.
  - cbn [Float.add]. destruct (Bool.eqb sa sb); cbn [is_finite F2Q];
      (split; [reflexivity | lra]).
  - cbn [Float.add is_finite].
    set (y := F2Q (S754_finite sb mb eb)) in *. clearbody y.
    cbn [F2Q]. split; [reflexivity | lra].
  - cbn [Float.add is_finite].
    set (x := F2Q (S754_finite sa ma ea)) in *. clearbody x.
    cbn [F2Q]. split; [reflexivity | lra].
  - cbn [Float.add].
    set (q := (F2Q (S754_finite sa ma ea) + F2Q (S754_finite sb mb eb))%Q)
      in *. clearbody q.
    destruct (rnd_error q H) as [A B].
    assert (P : (2097152 + eps < 2 ^ emax)%Q).
    { apply Qlt_trans with (inject_Z (2 ^ 53)); [reflexivity |].
      exact pow2_53_lt_emax. }
    destruct (round_Q_repr false q) as [[_ C] | [[_ C] | [Hf [E _]]]];
      try (exfalso; lra).
    split; [exact Hf |]. rewrite E. split; assumption.
Qed.

Lemma sub_error (a b : float) :
  valid a = true -> valid b = true ->
  is_finite a = true -> is_finite b = true ->
  (- (2097152) <= F2Q a - F2Q b <= 2097152)%Q ->
  valid (sub a b) = true /\ is_finite (sub a b) = true /\
  (F2Q a - F2Q b - eps <= F2Q (sub a b) <= F2Q a - F2Q b + eps)%Q.
Proof.
  intros Va Vb Fa Fb H. unfold sub.
  pose proof (F2Q_neg b) as E.
  destruct (add_error a (neg b)) as [V [F B]];
    try assumption; try (now rewrite neg_valid); try (now rewrite neg_finite).
  - rewrite E. lra.
  - split; [exact V | split; [exact F |]]. rewrite E in B. lra.
Qed.

Lemma exact_sum_nonneg (xs : list float) :
  Forall amount xs -> (0 <= exact_sum xs)%Q.
Proof.
  induction 1 as [| x xs [_ [_ Hx]] _ IH]; cbn [exact_sum fold_right];
    [lra |].
  fold (exact_sum xs). lra.
Qed.

Lemma length_cons_Q {A} (x : A) (xs : list A) :
  (inject_Z (Z.of_nat (List.length (x :: xs)))
   == inject_Z (Z.of_nat (List.length xs)) + 1)%Q.
Proof.
  cbn [List.length]. rewrite Nat2Z.inj_succ. unfold Z.succ.
  rewrite inject_Z_plus. reflexivity.
Qed.

Lemma length_nonneg_Q {A} (xs : list A) :
  (0 <= inject_Z (Z.of_nat (List.length xs)))%Q.
Proof. rewrite <- (Zle_Qle 0). lia. Qed.

(** The left-to-right sum. *)
Lemma fold_add_approx (xs : list float) :
  forall (f : float) (S ef : Q),
    approx f S ef -> Forall amount xs ->
    (0 <= S)%Q -> (S + exact_sum xs <= 1048576)%Q ->
    (0 <= ef)%Q ->
    (ef + inject_Z (Z.of_nat (List.length xs)) * eps <= 1)%Q ->
    approx (fold_left Float.add xs f) (S + exact_sum xs)
           (ef + inject_Z (Z.of_nat (List.length xs)) * eps).
Proof.
  pose proof eps_pos as He.
  induction xs as [| x xs IH]; intros f S ef [Vf [Ff Bf]] Hxs HS Hb Hef Hn.
  - cbn [fold_left exact_sum fold_right List.length Z.of_nat].
    split; [exact Vf | split; [exact Ff |]].
    change (inject_Z 0) with 0%Q. lra.
  - inversion Hxs as [| x' xs' [Vx [Fx Px]] Hxs' E1]; subst.
    pose proof (exact_sum_nonneg xs Hxs') as Pr.
    pose proof (length_nonneg_Q xs) as Pn.
    unfold approx in *. rewrite length_cons_Q in *.
    cbn [exact_sum fold_right] in *. fold (exact_sum xs) in *.
    set (n := inject_Z (Z.of_nat (List.length xs))) in *.
    assert (Pne : (0 <= n * eps)%Q)
      by (apply Qmult_le_0_compat; [exact Pn | lra]).
    destruct (add_error f x Vf Vx Ff Fx) as [Vt [Ft Bt]]; [lra |].
    cbn [fold_left].
    destruct (IH (Float.add f x) (S + F2Q x)%Q (ef + eps)%Q) as [V [F B]];
      try assumption; try lra.
    + split; [exact Vt | split; [exact Ft | lra]].
    + split; [exact V | split; [exact F | lra]].
Qed.

(** One step of the compensated sum. *)
Lemma compensated_add_approx (f c x : float) (S ef ec : Q) :
  approx f S ef -> approx c 0 ec -> amount x ->
  (0 <= S)%Q -> (S + F2Q x <= 1048576)%Q ->
  (0 <= ef)%Q -> (ef + eps <= 1)%Q -> (0 <= ec)%Q -> (ec + 4 * eps <= 1)%Q ->
  approx (fst (Py.compensated_add (f, c) x)) (S + F2Q x) (ef + eps) /\
  approx (snd (Py.compensated_add (f, c) x)) 0 (ec + 4 * eps).
Proof.
  intros [Vf [Ff Bf]] [Vc [Fc Bc]] [Vx [Fx Px]] HS Hb Hef Hef1 Hec Hec1.
  pose proof eps_pos as He.
  assert (He1 : (eps <= 1 # 4)%Q) by (vm_compute; discriminate).
  destruct (add_error f x Vf Vx Ff Fx) as [Vt [Ft Bt]]; [lra |].
  cbn [Py.compensated_add fst snd].
  set (t := Float.add f x) in *.
  split; [split; [exact Vt | split; [exact Ft | lra]] |].
  destruct (leb (fabs x) (fabs f)).
  - destruct (sub_error f t Vf Vt Ff Ft) as [V1 [F1 B1]]; [lra |].
    destruct (add_error (sub f t) x V1 Vx F1 Fx) as [V2 [F2 B2]]; [lra |].
    destruct (add_error c (Float.add (sub f t) x) Vc V2 Fc F2)
      as [V3 [F3 B3]]; [lra |].
    split; [exact V3 | split; [exact F3 | lra]].
  - destruct (sub_error x t Vx Vt Fx Ft) as [V1 [F1 B1]]; [lra |].
    destruct (add_error (sub x t) f V1 Vf F1 Ff) as [V2 [F2 B2]]; [lra |].
    destruct (add_error c (Float.add (sub x t) f) Vc V2 Fc F2)
      as [V3 [F3 B3]]; [lra |].
    split; [exact V3 | split; [exact F3 | lra]].
Qed.

Lemma fold_compensated_approx (xs : list float) :
  forall (f c : float) (S ef ec : Q),
    approx f S ef -> approx c 0 ec -> Forall amount xs ->
    (0 <= S)%Q -> (S + exact_sum xs <= 1048576)%Q ->
    (0 <= ef)%Q -> (0 <= ec)%Q ->
    (ef + inject_Z (Z.of_nat (List.length xs)) * eps <= 1)%Q ->
    (ec + inject_Z (Z.of_nat (List.length xs)) * (4 * eps) <= 1)%Q ->
    approx (fst (fold_left Py.compensated_add xs (f, c)))
           (S + exact_sum xs)
           (ef + inject_Z (Z.of_nat (List.length xs)) * eps) /\
    approx (snd (fold_left Py.compensated_add xs (f, c))) 0
           (ec + inject_Z (Z.of_nat (List.length xs)) * (4 * eps)).
Proof.
  pose proof eps_pos as He.
  induction xs as [| x xs IH];
    intros f c S ef ec Af Ac Hxs HS Hb Hef Hec Hn Hm.
  - cbn [fold_left exact_sum fold_right List.length Z.of_nat fst snd].
    change (inject_Z 0) with 0%Q.
    destruct Af as [Vf [Ff Bf]]. destruct Ac as [Vc [Fc Bc]].
    split; (split; [assumption | split; [assumption | lra]]).
  - inversion Hxs as [| x' xs' Hx Hxs' E1]; subst.
    pose proof (exact_sum_nonneg xs Hxs') as Pr.
    pose proof (length_nonneg_Q xs) as Pn.
    pose proof Hx as [_ [_ Px]].
    unfold approx in *. rewrite length_cons_Q in *.
    cbn [exact_sum fold_right] in *. fold (exact_sum xs) in *.
    set (n := inject_Z (Z.of_nat (List.length xs))) in *.
    assert (Pne : (0 <= n * eps)%Q)
      by (apply Qmult_le_0_compat; [exact Pn | lra]).
    destruct (compensated_add_approx f c x S ef ec) as [At Ac'];
      try assumption; try lra.
    cbn [fold_left].
    destruct (Py.compensated_add (f, c) x) as [t c'].
    cbn [fst snd] in At, Ac'.
    destruct (IH t c' (S + F2Q x)%Q (ef + eps)%Q (ec + 4 * eps)%Q)
      as [[V [F B]] [V' [F' B']]]; try assumption; try lra.
    split; (split; [assumption | split; [assumption | lra]]).
Qed.

(** The two sums of [calculate_insights]. *)

Lemma sum_floats_values (l : list float) (acc : float * float) :
  Py.sum_floats (map Py.PyFloat l) acc
  = Py.PyFloat (Py.compensated_total (fold_left Py.compensated_add l acc)).
Proof.
  revert acc. induction l as [| x l IH]; intros acc; [reflexivity |].
  cbn [map Py.sum_floats fold_left]. apply IH.
Qed.

Lemma sum_compensated_cons (a : Asset) (assets : list Asset) :
  Py.sum_compensated (values (a :: assets))
  = Py.PyFloat
      (Py.compensated_total
         (fold_left Py.compensated_add (map nominal_value assets)
                    (Float.add pos_zero (nominal_value a), pos_zero))).
Proof.
  rewrite values_map. unfold Py.sum_compensated.
  cbn [map Py.sum_ints]. apply sum_floats_values.
Qed.

Lemma sum_by_cons (alg : Py.summation) (a : Asset) (assets : list Asset) :
  exists t, Py.sum_by alg (values (a :: assets)) = Py.PyFloat t.
Proof.
  destruct alg; cbn [Py.sum_by].
  - rewrite sum_values_cons. eexists. reflexivity.
  - rewrite sum_compensated_cons. eexists. reflexivity.
Qed.

Lemma truthy_sum_by (alg : Py.summation) (assets : list Asset) :
  Py.truthy (Py.sum_by alg (values assets)) = true ->
  exists t, Py.sum_by alg (values assets) = Py.PyFloat t /\ is_zero t = false.
Proof.
  destruct assets as [| a l]; [destruct alg; discriminate |].
  destruct (sum_by_cons alg a l) as [t E]. rewrite E. intros H.
  exists t. split; [reflexivity |].
  cbn [Py.truthy] in H. now apply negb_true_iff in H.
Qed.

Lemma round_sum_by (alg : Py.summation) (assets : list Asset) (nd : Z) :
  0 <= nd ->
  Py.to_float (Py.round (Py.sum_by alg (values assets)) nd)
  = Float.round (Py.to_float (Py.sum_by alg (values assets))) nd.
Proof.
  intros Hnd. destruct assets as [| a l].
  - destruct alg; cbn [Py.sum_by values map Py.sum Py.sum_compensated
                         Py.sum_ints fold_left Py.round];
      (destruct (Z.leb_spec 0 nd) as [_ | C]; [reflexivity | lia]).
  - destruct (sum_by_cons alg a l) as [t E]. rewrite E. reflexivity.
Qed.

Lemma calculate_insights_on_eq (alg : Py.summation) (assets : list Asset) :
  calculate_insights_on alg assets
  = Ok (insights
          (Py.to_float (Py.round (Py.sum_by alg (values assets)) 2))
          (default_rate_of assets)
          (Py.to_float
             (Py.round
                (Py.sum_by alg (values (with_status active assets))) 2))
          (collection_rate_on alg assets)).
Proof.
  unfold calculate_insights_on, insights.
  assert (D : match assets with
              | _ :: _ => Py.truediv (Py.len (with_status defaulted assets))
                                     (Py.len assets)
              | [] => Ok (Py.PyInt 0)
              end
              = Ok (match assets with
                    | [] => Py.PyInt 0
                    | _ :: _ =>
                        Py.PyFloat
                          (round_Q false
                             (inject_Z (Z.of_nat (List.length
                                          (with_status defaulted assets)))
                              / inject_Z (Z.of_nat (List.length assets))))
                    end)).
  { destruct assets as [| a l]; [reflexivity |]. unfold Py.len.
    apply truediv_len; [apply with_status_length | cbn; lia]. }
  rewrite D. cbn [bind]. unfold collection_rate_on.
  destruct (Py.truthy (Py.sum_by alg (values assets))) eqn:T.
  - destruct (truthy_sum_by alg assets T) as [t [Et Zt]].
    rewrite Et. rewrite (truediv_float _ t Zt). cbn [bind].
    destruct assets as [| a l]; reflexivity.
  - cbn [bind]. destruct assets as [| a l]; reflexivity.
Qed.

Lemma calculate_insights_left_to_right (assets : list Asset) :
  calculate_insights_on Py.left_to_right assets = calculate_insights assets.
Proof. reflexivity. Qed.

(** Either sum of amounts that add up to at most 2^20 is within a quarter
    of their exact sum. *)
Lemma sum_by_near (alg : Py.summation) (assets : list Asset) :
  Forall (fun a => amount (nominal_value a)) assets ->
  (exact_sum (map nominal_value assets) <= 1048576)%Q ->
  Z.of_nat (List.length assets) <= 1048576 ->
  approx (Py.to_float (Py.sum_by alg (values assets)))
         (exact_sum (map nominal_value assets)) (1 # 4).
Proof.
  intros Ha Hs Hn. pose proof eps_pos as He.
  assert (Hxs : Forall amount (map nominal_value assets))
    by (now apply Forall_map).
  assert (Z0 : approx pos_zero 0 0)
    by (split; [reflexivity | split; [reflexivity | cbn [F2Q pos_zero]; lra]]).
  destruct alg; cbn [Py.sum_by].
  - rewrite sum_values.
    pose proof (length_nonneg_Q (map nominal_value assets)) as Pn.
    assert (Hq : (inject_Z (Z.of_nat (List.length (map nominal_value assets)))
                  <= 1048576)%Q).
    { rewrite length_map. change 1048576%Q with (inject_Z 1048576).
      now rewrite <- Zle_Qle. }
    set (n := inject_Z (Z.of_nat (List.length (map nominal_value assets))))
      in *.
    assert (Pne : (0 <= n * eps <= 1 # 4096)%Q).
    { split; [apply Qmult_le_0_compat; [exact Pn | lra] |].
      apply Qle_trans with (1048576 * eps)%Q;
        [apply Qmult_le_r; [exact He | exact Hq] | vm_compute; discriminate]. }
    destruct (fold_add_approx (map nominal_value assets) pos_zero 0 0)
      as [V [F B]]; try assumption; try (fold n; lra).
    fold n in B. split; [exact V | split; [exact F | lra]].
  - destruct assets as [| a l].
    + split; [reflexivity | split; [reflexivity |]].
      cbn [values map Py.sum_compensated Py.sum_ints Py.to_float exact_sum
             fold_right].
      change (F2Q (of_Z 0)) with 0%Q. lra.
    + rewrite sum_compensated_cons. cbn [Py.to_float].
      cbn [map exact_sum fold_right] in *. fold (exact_sum (map nominal_value l)) in *.
      inversion Hxs as [| x' xs' [Vx [Fx Px]] Hxs' E1]; subst.
      pose proof (exact_sum_nonneg _ Hxs') as Pr.
      pose proof (length_nonneg_Q (map nominal_value l)) as Pn.
      assert (Hq : (inject_Z (Z.of_nat (List.length (map nominal_value l)))
                    <= 1048576)%Q).
      { rewrite length_map. change 1048576%Q with (inject_Z 1048576).
        rewrite <- Zle_Qle. cbn [List.length] in Hn. lia. }
      set (n := inject_Z (Z.of_nat (List.length (map nominal_value l)))) in *.
      assert (Pne : (0 <= n * eps <= 1 # 4096)%Q).
      { split; [apply Qmult_le_0_compat; [exact Pn | lra] |].
        apply Qle_trans with (1048576 * eps)%Q;
          [apply Qmult_le_r; [exact He | exact Hq] | vm_compute; discriminate]. }
      assert (He1 : (eps <= 1 # 4096)%Q) by (vm_compute; discriminate).
      destruct (add_error pos_zero (nominal_value a)) as [V0 [F0 B0]];
        try assumption; try reflexivity.
      { cbn [F2Q pos_zero]. lra. }
      cbn [F2Q pos_zero] in B0.
      destruct (fold_compensated_approx (map nominal_value l)
                  (Float.add pos_zero (nominal_value a)) pos_zero
                  (F2Q (nominal_value a)) eps 0)
        as [[Vf [Ff Bf]] [Vc [Fc Bc]]]; try assumption; try (fold n; lra).
      { split; [exact V0 | split; [exact F0 | lra]]. }
      fold n in Bf, Bc.
      destruct (fold_left Py.compensated_add (map nominal_value l)
                  (Float.add pos_zero (nominal_value a), pos_zero))
        as [f c].
      cbn [fst snd Py.compensated_total] in *.
      destruct (negb (is_zero c) && is_finite c).
      * destruct (add_error f c Vf Vc Ff Fc) as [V [F B]]; [lra |].
        split; [exact V | split; [exact F | lra]].
      * split; [exact Vf | split; [exact Ff | lra]].
Qed.

(** A part of a list of values between 1 and [hi]. *)

Lemma ranged_amounts (hi : Z) (assets : list Asset) :
  1 <= hi -> Z.of_nat (List.length assets) * hi <= 1048576 ->
  Forall (fun a => in_range 1 hi (nominal_value a)) assets ->
  Forall (fun a => amount (nominal_value a) /\
                   (1 <= F2Q (nominal_value a) <= inject_Z hi)%Q) assets.
Proof.
  intros Hhi Hn H.
  destruct assets as [| a l]; [constructor |].
  assert (Hb : hi <= 2 ^ 53) by (cbn [List.length] in Hn; nia).
  eapply Forall_impl; [| exact H].
  intros b Hr. destruct (in_range_finite 1 hi _ ltac:(lia) Hb Hr)
    as [[V _] [F [L U]]].
  change (inject_Z 1) with 1%Q in L.
  split; [split; [exact V | split; [exact F | lra]] | split; assumption].
Qed.

Lemma exact_sum_le (hi : Z) (assets : list Asset) :
  Forall (fun a => (F2Q (nominal_value a) <= inject_Z hi)%Q) assets ->
  (exact_sum (map nominal_value assets)
   <= inject_Z (Z.of_nat (List.length assets) * hi))%Q.
Proof.
  induction 1 as [| a l Ha _ IH].
  - apply Qle_refl.
  - cbn [map exact_sum fold_right]. fold (exact_sum (map nominal_value l)).
    replace (Z.of_nat (List.length (a :: l)) * hi)
      with (hi + Z.of_nat (List.length l) * hi)
      by (cbn [List.length]; lia).
    rewrite inject_Z_plus. lra.
Qed.

Lemma exact_sum_with_status (s : Status) (assets : list Asset) :
  Forall (fun a => (1 <= F2Q (nominal_value a))%Q) assets ->
  (exact_sum (map nominal_value (with_status s assets))
   <= exact_sum (map nominal_value assets))%Q /\
  (with_status s assets = assets \/
   (exact_sum (map nominal_value (with_status s assets)) + 1
    <= exact_sum (map nominal_value assets))%Q).
Proof.
  unfold with_status.
  induction 1 as [| a l Ha _ [IH1 IH2]]; [split; [cbn; lra | now left] |].
  cbn [filter]. destruct (Status_eqb (status a) s);
    cbn [map exact_sum fold_right];
    fold (exact_sum (map nominal_value l));
    fold (exact_sum
            (map nominal_value
                 (filter (fun a => Status_eqb (status a) s) l))).
  - split; [lra |]. destruct IH2 as [E | L]; [left; now rewrite E | right; lra].
  - split; [lra | right; lra].
Qed.

Lemma ranged_with_status (hi : Z) (s : Status) (assets : list Asset) :
  1 <= hi -> Z.of_nat (List.length assets) * hi <= 1048576 ->
  Forall (fun a => in_range 1 hi (nominal_value a)) assets ->
  Z.of_nat (List.length (with_status s assets)) * hi <= 1048576 /\
  Forall (fun a => in_range 1 hi (nominal_value a)) (with_status s assets).
Proof.
  intros Hhi Hn H. split; [| now apply Forall_with_status].
  pose proof (with_status_length s assets). nia.
Qed.

Lemma ranged_sum (alg : Py.summation) (hi : Z) (assets : list Asset) :
  1 <= hi -> Z.of_nat (List.length assets) * hi <= 1048576 ->
  Forall (fun a => in_range 1 hi (nominal_value a)) assets ->
  approx (Py.to_float (Py.sum_by alg (values assets)))
         (exact_sum (map nominal_value assets)) (1 # 4) /\
  nonneg (Py.to_float (Py.sum_by alg (values assets))) /\
  (assets <> [] ->
   ltb pos_zero (Py.to_float (Py.sum_by alg (values assets))) = true).
Proof.
  intros Hhi Hn H.
  pose proof (ranged_amounts hi assets Hhi Hn H) as Hr.
  assert (Ha : Forall (fun a => amount (nominal_value a)) assets)
    by (eapply Forall_impl; [| exact Hr]; now intros a [Ha _]).
  assert (Hu : Forall (fun a => (F2Q (nominal_value a) <= inject_Z hi)%Q)
                      assets)
    by (eapply Forall_impl; [| exact Hr]; now intros a [_ [_ U]]).
  assert (Hs : (exact_sum (map nominal_value assets) <= 1048576)%Q).
  { apply Qle_trans with (inject_Z (Z.of_nat (List.length assets) * hi));
      [now apply exact_sum_le |].
    change 1048576%Q with (inject_Z 1048576). now rewrite <- Zle_Qle. }
  assert (Hl : Z.of_nat (List.length assets) <= 1048576) by nia.
  pose proof (sum_by_near alg assets Ha Hs Hl) as A.
  split; [exact A |].
  destruct assets as [| a l].
  - split; [| intros C; now contradiction C].
    destruct alg; split; reflexivity.
  - assert (P : (1 <= exact_sum (map nominal_value (a :: l)))%Q).
    { inversion Hr as [| a' l' [_ [L _]] Hr' E1]; subst.
      assert (Hxs : Forall amount (map nominal_value l)).
      { apply Forall_map. eapply Forall_impl; [| exact Hr'].
        now intros b [Hb _]. }
      pose proof (exact_sum_nonneg _ Hxs) as Pr.
      cbn [map exact_sum fold_right].
      fold (exact_sum (map nominal_value l)). lra. }
    destruct A as [V [F B]].
    set (t := Py.to_float (Py.sum_by alg (values (a :: l)))) in *.
    set (e := exact_sum (map nominal_value (a :: l))) in *.
    clearbody t e.
    split; [split; [exact V |] | intros _].
    + apply leb_finite; [reflexivity | exact F |]. cbn [F2Q pos_zero]. lra.
    + apply ltb_finite; [reflexivity | exact F |]. cbn [F2Q pos_zero]. lra.
Qed.

Lemma part_le_whole (alg : Py.summation) (hi : Z) (s : Status)
      (assets : list Asset) :
  1 <= hi -> Z.of_nat (List.length assets) * hi <= 1048576 ->
  Forall (fun a => in_range 1 hi (nominal_value a)) assets ->
  leb (Py.to_float (Py.sum_by alg (values (with_status s assets))))
      (Py.to_float (Py.sum_by alg (values assets))) = true.
Proof.
  intros Hhi Hn H.
  destruct (ranged_with_status hi s assets Hhi Hn H) as [Hn' H'].
  destruct (ranged_sum alg hi assets Hhi Hn H) as [[Vt [Ft Bt]] _].
  destruct (ranged_sum alg hi _ Hhi Hn' H') as [[Vp [Fp Bp]] _].
  assert (H1 : Forall (fun a => (1 <= F2Q (nominal_value a))%Q) assets).
  { eapply Forall_impl; [| exact (ranged_amounts hi assets Hhi Hn H)].
    now intros a [_ [L _]]. }
  destruct (exact_sum_with_status s assets H1) as [_ [E | L]].
  - rewrite E. apply leb_finite; [exact Ft | exact Ft | apply Qle_refl].
  - apply leb_finite; [exact Fp | exact Ft |].
    set (p := F2Q (Py.to_float (Py.sum_by alg (values (with_status s assets)))))
      in *.
    set (t := F2Q (Py.to_float (Py.sum_by alg (values assets)))) in *.
    clearbody p t. lra.
Qed.



(** The compensated sum on [sum([0.1] * 10)], which is 1.0 where the
    left-to-right sum is 0.9999999999999999, on [sum([1e16, 1.0, 1.0])],
    which is 1.0000000000000002e16 where the left-to-right sum is 1e16, and
    on a list with an integer before the first float. *)
Example compensated_examples :
  Py.sum_compensated (repeat (Py.PyFloat (of_decimal 1 1)) 10)
  = Py.PyFloat (of_Z 1)
  /\ Py.sum (repeat (Py.PyFloat (of_decimal 1 1)) 10)
     = Py.PyFloat (of_decimal 9999999999999999 16)
  /\ Py.sum_compensated [Py.PyFloat (of_Z (10 ^ 16)); Py.PyFloat (of_Z 1);
                         Py.PyFloat (of_Z 1)]
     = Py.PyFloat (of_Z (10 ^ 16 + 2))
  /\ Py.sum [Py.PyFloat (of_Z (10 ^ 16)); Py.PyFloat (of_Z 1);
             Py.PyFloat (of_Z 1)]
     = Py.PyFloat (of_Z (10 ^ 16))
  /\ Py.sum_compensated [Py.PyInt 2; Py.PyFloat (of_decimal 5 1)]
     = Py.PyFloat (of_decimal 25 1)
  /\ Py.sum_compensated [] = Py.PyInt 0.
Proof. repeat split; vm_compute; reflexivity. Qed.

(** [Float.sub], [Float.neg] and [Float.fabs] are the operations of the
    standard library on every pair of [samples]. *)
Example subtraction_agrees :
  forallb
    (fun p =>
       eqb (sub (fst p) (snd p)) (SFsub prec emax (fst p) (snd p))
       && eqb (neg (fst p)) (SFopp (fst p))
       && eqb (fabs (fst p)) (SFabs (fst p)))
    (list_prod samples samples) = true.
Proof. vm_compute. reflexivity. Qed.

(** The two bounded values, below 2^20. *)

Lemma collection_rate_on_unit (alg : Py.summation) (hi : Z)
      (assets : list Asset) :
  1 <= hi -> Z.of_nat (List.length assets) * hi <= 1048576 ->
  Forall (fun a => in_range 1 hi (nominal_value a)) assets ->
  in_unit_interval (collection_rate_on alg assets) = true.
Proof.
  intros Hhi Hn H. unfold collection_rate_on.
  destruct (Py.truthy (Py.sum_by alg (values assets))) eqn:T;
    [| reflexivity].
  destruct (truthy_sum_by alg assets T) as [t [Et Zt]].
  destruct (ranged_with_status hi paid assets Hhi Hn H) as [Hn' H'].
  destruct (ranged_sum alg hi assets Hhi Hn H) as [[_ [Ft _]] [Gt _]].
  destruct (ranged_sum alg hi _ Hhi Hn' H') as [_ [Gp _]].
  pose proof (part_le_whole alg hi paid assets Hhi Hn H) as Hle.
  rewrite Et in *. cbn [Py.to_float] in *.
  destruct (div_unit _ t Gp Gt Ft (nonneg_positive t Gt Ft Zt) Hle)
    as [Df Du].
  apply round_unit; [exact Df | exact Du | lia].
Qed.

Lemma outstanding_on_le_total (alg : Py.summation) (hi : Z)
      (assets : list Asset) :
  1 <= hi -> Z.of_nat (List.length assets) * hi <= 1048576 ->
  Forall (fun a => in_range 1 hi (nominal_value a)) assets ->
  leb pos_zero
      (Py.to_float
         (Py.round (Py.sum_by alg (values (with_status active assets))) 2))
  = true /\
  leb (Py.to_float
         (Py.round (Py.sum_by alg (values (with_status active assets))) 2))
      (Py.to_float (Py.round (Py.sum_by alg (values assets)) 2)) = true.
Proof.
  intros Hhi Hn H.
  destruct (ranged_with_status hi active assets Hhi Hn H) as [Hn' H'].
  destruct (ranged_sum alg hi assets Hhi Hn H) as [_ [Gt _]].
  destruct (ranged_sum alg hi _ Hhi Hn' H') as [_ [Ga _]].
  rewrite !round_sum_by by lia. split.
  - change pos_zero with (Float.round pos_zero 2) at 1.
    apply round_mono; [apply nonneg_pos_zero | exact Ga | lia | apply Ga].
  - apply round_mono; [exact Ga | exact Gt | lia |].
    now apply part_le_whole with (hi := hi).
Qed.

Lemma in_range_from_1 (lo hi : Z) (x : float) :
  1 <= lo -> in_range lo hi x -> in_range 1 hi x.
Proof.
  intros Hlo [V [L U]]. split; [exact V | split; [| exact U]].
  apply (leb_trans _ (of_Z lo)); [now apply of_Z_mono | exact L].
Qed.

(** ** The claims *)

(** C1, as amended.  For every list of assets, [total_portfolio_value] is
    the sum of [nominal_value] over all assets rounded to 2 decimals and
    [outstanding_debt] is the sum over the active assets rounded to 2
    decimals.  When the un-rounded total is non-zero, [collection_rate] is
    the sum over the paid assets divided by the un-rounded total, rounded to
    4 decimals; when the un-rounded total is zero, no division takes place
    and [collection_rate] is 0. *)
Theorem insights_formulas (assets : list Asset) :
  (Py.truthy (Py.sum (values assets)) = true ->
   computed_as_specified assets) /\
  (Py.truthy (Py.sum (values assets)) = false ->
   exists default_rate,
     calculate_insights assets =
       Ok (insights (Py.to_float (spec_total_portfolio_value assets))
                    default_rate
                    (Py.to_float (spec_outstanding_debt assets))
                    (of_Z 0))).
Proof.
  split; intros T.
  - destruct (truthy_sum assets T) as [t [Et Zt]].
    exists (default_rate_of assets).
    exists (Py.round (Py.PyFloat
               (Float.div
                  (Py.to_float (Py.sum (values (with_status paid assets))))
                  (Py.to_float (Py.sum (values assets))))) 4).
    split.
    + unfold spec_collection_rate. rewrite Et, (truediv_float _ t Zt).
      reflexivity.
    + rewrite calculate_insights_eq. unfold collection_rate_of.
      rewrite T. reflexivity.
  - exists (default_rate_of assets).
    rewrite calculate_insights_eq. unfold collection_rate_of. rewrite T.
    reflexivity.
Qed.

Lemma insights_formulas_witness :
  Py.truthy (Py.sum (values (scenario "A" "B" "C" 1 2 3))) = true /\
  computed_as_specified (scenario "A" "B" "C" 1 2 3).
Proof.
  split; [reflexivity |].
  apply (proj1 (insights_formulas (scenario "A" "B" "C" 1 2 3))).
  reflexivity.
Defined.

(** C1, as stated, fails on the empty list: the formula of
    [collection_rate] divides 0 by 0 there, which raises, while
    [calculate_insights] skips the division and returns 0. *)
Lemma computed_as_specified_counterexample : ~ computed_as_specified [].
Proof. intros [dr [cr [H _]]]. discriminate H. Qed.

(** C2.  Every asset [get_assets] returns has a status among active,
    defaulted and paid, a [nominal_value] between 1000 and 50000 that is a
    value rounded to 2 decimals, and a [due_date] that is the date read in
    its iteration plus an offset between -90 and 180 days. *)
Theorem assets_in_range (R : Random) (clock : nat -> date) (st : rng R) :
  choices_draws R -> randint_range R -> uniform_range R ->
  exists assets st',
    get_assets R clock st = Ok (assets, st') /\
    forall i a, nth_error assets i = Some a ->
      In (status a) [active; defaulted; paid] /\
      (leb (of_Z 1000) (nominal_value a) = true /\
       leb (nominal_value a) (of_Z 50000) = true) /\
      (exists u, nominal_value a = Float.round u 2) /\
      (exists offset, -90 <= offset <= 180 /\ due_date a = clock i + offset).
Proof.
  intros Hc Hr Hu.
  destruct (get_assets_ok R clock Hc st) as [assets [st' [E D]]].
  exists assets, st'. split; [exact E |]. intros i a Hi.
  destruct (Forall2_nth_error _ _ _ _ _ D Hi)
    as [j [Hj [_ [Hs [[s1 Hd] [s2 Hv]]]]]].
  assert (j = i) as ->.
  { assert (Hlt : (i < List.length (seq 0 20))%nat)
      by (apply nth_error_Some; congruence).
    rewrite length_seq in Hlt. rewrite nth_error_seq in Hj.
    destruct (Nat.ltb_spec i 20); [| lia]. now injection Hj. }
  split; [exact Hs |]. split; [| split].
  - destruct (Hu 1000 50000 s2) as [L U]; [lia |].
    assert (Fu : is_finite (fst (uniform R 1000 50000 s2)) = true).
    { destruct (fst (uniform R 1000 50000 s2)) as [| [|] | |];
        try reflexivity; discriminate. }
    rewrite Hv. split.
    + change (of_Z 1000) with (Float.round (of_Z 1000) 2).
      apply round_mono_finite; [reflexivity | exact Fu | lia | exact L].
    + change (of_Z 50000) with (Float.round (of_Z 50000) 2).
      apply round_mono_finite; [exact Fu | reflexivity | lia | exact U].
  - eexists. exact Hv.
  - exists (fst (randint R (-90) 180 s1)). split; [| exact Hd].
    apply Hr. lia.
Qed.

Lemma assets_in_range_witness :
  exists assets st',
    get_assets toy_random (fun _ => 739000) 7 = Ok (assets, st') /\
    forall i a, nth_error assets i = Some a ->
      In (status a) [active; defaulted; paid] /\
      (leb (of_Z 1000) (nominal_value a) = true /\
       leb (nominal_value a) (of_Z 50000) = true) /\
      (exists u, nominal_value a = Float.round u 2) /\
      (exists offset, -90 <= offset <= 180 /\ due_date a = 739000 + offset).
Proof.
  exact (assets_in_range toy_random (fun _ => 739000) 7
           toy_choices_draws toy_randint_range toy_uniform_range).
Defined.

(** C3.  Every call of [get_assets] returns exactly 20 assets whose ids are
    asset-001 to asset-020 in that order, pairwise distinct. *)
Theorem assets_ids (R : Random) (clock : nat -> date) (st : rng R) :
  choices_draws R ->
  exists assets st',
    get_assets R clock st = Ok (assets, st') /\
    List.length assets = 20%nat /\
    map id assets
    = ["asset-001"; "asset-002"; "asset-003"; "asset-004"; "asset-005";
       "asset-006"; "asset-007"; "asset-008"; "asset-009"; "asset-010";
       "asset-011"; "asset-012"; "asset-013"; "asset-014"; "asset-015";
       "asset-016"; "asset-017"; "asset-018"; "asset-019"; "asset-020"
      ]%string /\
    NoDup (map id assets).
Proof.
  intros Hc. destruct (get_assets_ok R clock Hc st) as [assets [st' [E D]]].
  exists assets, st'. split; [exact E |].
  assert (Hid : map id assets
                = map (fun i =>
                         ("asset-" ++ Py.format_03d (Z.of_nat i + 1))%string)
                      (seq 0 20)).
  { apply Forall2_map_eq. eapply Forall2_impl; [| exact D].
    intros i a Hd. apply Hd. }
  split; [| split].
  - rewrite <- (length_map id), Hid, length_map. reflexivity.
  - rewrite Hid. vm_compute. reflexivity.
  - rewrite Hid.
    match goal with
    | |- NoDup ?l =>
        assert (E' : nodup string_dec l = l) by (vm_compute; reflexivity);
        rewrite <- E'; apply NoDup_nodup
    end.
Qed.

Lemma assets_ids_witness :
  exists assets st',
    get_assets toy_random (fun _ => 739000) 7 = Ok (assets, st') /\
    List.length assets = 20%nat /\
    map id assets
    = ["asset-001"; "asset-002"; "asset-003"; "asset-004"; "asset-005";
       "asset-006"; "asset-007"; "asset-008"; "asset-009"; "asset-010";
       "asset-011"; "asset-012"; "asset-013"; "asset-014"; "asset-015";
       "asset-016"; "asset-017"; "asset-018"; "asset-019"; "asset-020"
      ]%string /\
    NoDup (map id assets).
Proof.
  exact (assets_ids toy_random (fun _ => 739000) 7 toy_choices_draws).
Defined.

(** C4.  [get_assets] seeds the generator with 42 before its first draw,
    and seeding replaces the whole state: with a fixed today, the list
    returned (and the state left) is the same whatever state the previous
    calls left behind, so any two calls return the same list. *)
Theorem assets_deterministic (R : Random) (today : date) (st st' : rng R) :
  seed_resets R ->
  get_assets R (fun _ => today) st = get_assets R (fun _ => today) st'.
Proof.
  intros Hs. unfold get_assets. now rewrite (Hs 42 st st').
Qed.

Lemma assets_deterministic_witness :
  get_assets toy_random (fun _ => 739000) 7
  = get_assets toy_random (fun _ => 739000) 2024.
Proof.
  exact (assets_deterministic toy_random 739000 7 2024 toy_seed_resets).
Defined.

(** C5.  For every list of assets, [calculate_insights] returns exactly 4
    insights, with ids insight-001 to insight-004 and names
    total_portfolio_value, default_rate, outstanding_debt, collection_rate
    in that order. *)
Theorem insights_fixed_order (assets : list Asset) :
  exists l, calculate_insights assets = Ok l /\
    map insight_id l
    = ["insight-001"; "insight-002"; "insight-003"; "insight-004"]%string /\
    map name l
    = ["total_portfolio_value"; "default_rate"; "outstanding_debt";
       "collection_rate"]%string.
Proof.
  rewrite calculate_insights_eq. eexists. split; [reflexivity |].
  split; reflexivity.
Qed.

(** C6.  [calculate_insights] returns a list for every input: no call
    raises, so neither of its two divisions ever divides by zero.  On the
    empty list the four values are 0. *)
Theorem insights_total :
  calculate_insights []
  = Ok (insights pos_zero pos_zero pos_zero pos_zero) /\
  forall assets, exists l, calculate_insights assets = Ok l.
Proof.
  split; [reflexivity |].
  intros assets. rewrite calculate_insights_eq. eexists. reflexivity.
Qed.

(** C7.  On A(1000, active), B(2000, defaulted), C(3000, paid) the values
    are 6000.0, 0.3333, 1000.0 and 0.5. *)
Theorem insights_scenario (idA idB idC : string) (dA dB dC : date) :
  calculate_insights (scenario idA idB idC dA dB dC)
  = Ok (insights (of_decimal 60000 1) (of_decimal 3333 4)
                 (of_decimal 10000 1) (of_decimal 5 1)).
Proof. vm_compute. reflexivity. Qed.




(** C9.  Two lists of equal length whose assets agree pairwise on
    [nominal_value] and [status] give the same insights. *)
Theorem insights_ignore_id_and_date (l1 l2 : list Asset) :
  Forall2 same_value_and_status l1 l2 ->
  calculate_insights l1 = calculate_insights l2.
Proof.
  intros H. rewrite !calculate_insights_eq.
  assert (Hd : default_rate_of l1 = default_rate_of l2).
  { unfold default_rate_of.
    rewrite (Forall2_length (same_with_status defaulted l1 l2 H)).
    rewrite (Forall2_length H).
    destruct H; reflexivity. }
  assert (Hc : collection_rate_of l1 = collection_rate_of l2).
  { unfold collection_rate_of.
    now rewrite (same_values _ _ H),
                (same_values _ _ (same_with_status paid l1 l2 H)). }
  now rewrite Hd, Hc, (same_values _ _ H),
              (same_values _ _ (same_with_status active l1 l2 H)).
Qed.

Lemma insights_ignore_id_and_date_witness :
  calculate_insights (scenario "A" "B" "C" 1 2 3)
  = calculate_insights (scenario "asset-001" "asset-002" "asset-003" 4 5 6).
Proof.
  apply insights_ignore_id_and_date.
  repeat constructor.
Defined.




(** ** Further properties of the handlers, the generator and the insights *)

(** X1.  [list_insights] hands the 20 generated assets to
    [calculate_insights]: when the generator keeps its contracts, the
    request returns the four insights of the list [get_assets] generates,
    in the generator state [get_assets] leaves, and
    [total_portfolio_value] lies between 20 * 1000 and 20 * 50000. *)
Theorem list_insights_total_range (R : Random) (clock : nat -> date)
        (st : rng R) :
  choices_draws R -> uniform_range R ->
  exists assets st' total default_rate outstanding collection_rate,
    get_assets R clock st = Ok (assets, st') /\
    List.length assets = 20%nat /\
    calculate_insights assets
    = Ok (insights total default_rate outstanding collection_rate) /\
    list_insights R clock st
    = Ok (insights total default_rate outstanding collection_rate, st') /\
    leb (of_Z 20000) total = true /\ leb total (of_Z 1000000) = true.
Proof.
  intros Hc Hu.
  destruct (served_portfolio R clock st Hc Hu) as [assets [st' [E [Hl Hr]]]].
  exists assets, st'. rewrite (list_insights_eq R clock st st' assets E).
  rewrite calculate_insights_eq. do 4 eexists.
  split; [exact E |]. split; [exact Hl |].
  split; [reflexivity |]. split; [reflexivity |].
  destruct (total_rounded_between 1000 50000 assets) as [L U];
    [lia | rewrite Hl; cbn; lia | exact Hr |].
  rewrite Hl in L, U. split; [exact L | exact U].
Qed.

Lemma list_insights_total_range_witness :
  exists assets st' total default_rate outstanding collection_rate,
    get_assets toy_random (fun _ => 739000) 7 = Ok (assets, st') /\
    List.length assets = 20%nat /\
    calculate_insights assets
    = Ok (insights total default_rate outstanding collection_rate) /\
    list_insights toy_random (fun _ => 739000) 7
    = Ok (insights total default_rate outstanding collection_rate, st') /\
    leb (of_Z 20000) total = true /\ leb total (of_Z 1000000) = true.
Proof.
  exact (list_insights_total_range toy_random (fun _ => 739000) 7
           toy_choices_draws toy_uniform_range).
Defined.

(** X2.  On the portfolio [list_insights] serves, both rates are in
    [0, 1]: the generated values are positive and their sum is finite, so
    the division by the total is a division of a part by the whole. *)
Theorem list_insights_rates_bounded (R : Random) (clock : nat -> date)
        (st : rng R) :
  choices_draws R -> uniform_range R ->
  exists total default_rate outstanding collection_rate st',
    list_insights R clock st
    = Ok (insights total default_rate outstanding collection_rate, st') /\
    in_unit_interval default_rate = true /\
    in_unit_interval collection_rate = true.
Proof.
  intros Hc Hu.
  destruct (served_portfolio R clock st Hc Hu) as [assets [st' [E [Hl Hr]]]].
  rewrite (list_insights_eq R clock st st' assets E).
  do 5 eexists. split; [reflexivity |].
  split; [apply default_rate_unit |].
  destruct (total_between 1000 50000 assets) as [_ [Hf [L _]]];
    [lia | rewrite Hl; cbn; lia | exact Hr |].
  apply collection_rate_unit.
  - apply (in_range_nonneg 1000 50000); [lia | lia | exact Hr].
  - exact Hf.
  - apply ltb_finite; [reflexivity | exact Hf |].
    rewrite Hl in L. eapply Qlt_le_trans; [| exact L]. reflexivity.
Qed.

Lemma list_insights_rates_bounded_witness :
  exists total default_rate outstanding collection_rate st',
    list_insights toy_random (fun _ => 739000) 7
    = Ok (insights total default_rate outstanding collection_rate, st') /\
    in_unit_interval default_rate = true /\
    in_unit_interval collection_rate = true.
Proof.
  exact (list_insights_rates_bounded toy_random (fun _ => 739000) 7
           toy_choices_draws toy_uniform_range).
Defined.

(** X3.  On the portfolio [list_insights] serves, [outstanding_debt] is
    between 0 and [total_portfolio_value]. *)
Theorem list_insights_debt_bounded (R : Random) (clock : nat -> date)
        (st : rng R) :
  choices_draws R -> uniform_range R ->
  exists total default_rate outstanding collection_rate st',
    list_insights R clock st
    = Ok (insights total default_rate outstanding collection_rate, st') /\
    leb pos_zero outstanding = true /\ leb outstanding total = true.
Proof.
  intros Hc Hu.
  destruct (served_portfolio R clock st Hc Hu) as [assets [st' [E [Hl Hr]]]].
  rewrite (list_insights_eq R clock st st' assets E).
  do 5 eexists. split; [reflexivity |].
  apply outstanding_le_total.
  apply (in_range_nonneg 1000 50000); [lia | lia | exact Hr].
Qed.

Lemma list_insights_debt_bounded_witness :
  exists total default_rate outstanding collection_rate st',
    list_insights toy_random (fun _ => 739000) 7
    = Ok (insights total default_rate outstanding collection_rate, st') /\
    leb pos_zero outstanding = true /\ leb outstanding total = true.
Proof.
  exact (list_insights_debt_bounded toy_random (fun _ => 739000) 7
           toy_choices_draws toy_uniform_range).
Defined.

(** X4.  [list_insights] answers the same on every day and after any
    earlier request: [date.today()] only enters the due dates, which
    [calculate_insights] does not read, and the generator is seeded anew.
    The clocks may even change between the iterations of a call. *)
Theorem list_insights_every_day (R : Random) (c1 c2 : nat -> date)
        (st1 st2 : rng R) :
  seed_resets R ->
  list_insights R c1 st1 = list_insights R c2 st2.
Proof.
  intros Hs. pose proof (get_assets_same_values R c1 c2 st1 st2 Hs) as G.
  unfold list_insights.
  destruct (get_assets R c1 st1) as [[l1 s1] | e1];
    destruct (get_assets R c2 st2) as [[l2 s2] | e2];
    cbn [bind fst snd]; try contradiction.
  - destruct G as [G ->]. now rewrite (calculate_insights_same l1 l2 G).
  - now rewrite G.
Qed.

Lemma list_insights_every_day_witness :
  list_insights toy_random (fun _ => 739000) 7
  = list_insights toy_random (fun i => 739500 + Z.of_nat i) 2024.
Proof.
  exact (list_insights_every_day toy_random (fun _ => 739000)
           (fun i => 739500 + Z.of_nat i) 7 2024 toy_seed_resets).
Defined.

(** X5.  The insights are those of the assets a client is shown: whatever
    list [list_assets] returns, on any day and after any earlier request,
    [list_insights] returns [calculate_insights] of that list, and leaves
    the generator in the same state. *)
Theorem insights_match_assets (R : Random) (c1 c2 : nat -> date)
        (st1 st2 : rng R) (assets : list Asset) (st' : rng R) :
  seed_resets R ->
  list_assets R c1 st1 = Ok (assets, st') ->
  exists served,
    calculate_insights assets = Ok served /\
    list_insights R c2 st2 = Ok (served, st').
Proof.
  intros Hs E. unfold list_assets in E.
  pose proof (get_assets_same_values R c1 c2 st1 st2 Hs) as G.
  rewrite E in G. unfold list_insights.
  destruct (get_assets R c2 st2) as [[l2 s2] | e2]; [| contradiction].
  destruct G as [G <-]. cbn [bind fst snd].
  rewrite <- (calculate_insights_same assets l2 G), calculate_insights_eq.
  eexists. split; reflexivity.
Qed.

Lemma insights_match_assets_witness :
  exists assets st' served,
    list_assets toy_random (fun _ => 739000) 7 = Ok (assets, st') /\
    calculate_insights assets = Ok served /\
    list_insights toy_random (fun i => 739500 + Z.of_nat i) 2024
    = Ok (served, st').
Proof.
  eassert (E : list_assets toy_random (fun _ => 739000) 7 = Ok (_, _))
    by (vm_compute; reflexivity).
  destruct (insights_match_assets toy_random (fun _ => 739000)
              (fun i => 739500 + Z.of_nat i) 7 2024 _ _
              toy_seed_resets E) as [served [H1 H2]].
  do 2 eexists. exists served.
  split; [exact E |]. split; [exact H1 | exact H2].
Defined.

(** X6.  A call of [get_assets] made [d] days later, from the same
    generator state, returns the same ids, values and statuses, every due
    date moved by [d] days, and leaves the same generator state. *)
Theorem assets_shift_with_today (R : Random) (today d : date) (st : rng R) :
  choices_draws R ->
  exists l1 l2 st',
    get_assets R (fun _ => today) st = Ok (l1, st') /\
    get_assets R (fun _ => today + d) st = Ok (l2, st') /\
    Forall2 (shifted d) l1 l2.
Proof.
  intros Hc.
  destruct (get_assets_ok R (fun _ => today) Hc st) as [l1 [st' [E _]]].
  assert (HQ : forall i a b,
             same_draws (fun _ => today) (fun _ => today + d) i a b ->
             shifted d a b).
  { intros i a b [Hi [Hv [Hs Hd]]]. repeat split; try assumption. lia. }
  pose proof (get_assets_agree R _ _ _ HQ st) as G. rewrite E in G.
  destruct (get_assets R (fun _ => today + d) st) as [[l2 s2] | e];
    [| contradiction].
  destruct G as [G <-]. exists l1, l2, st'.
  split; [exact E |]. split; [reflexivity | exact G].
Qed.

Lemma assets_shift_with_today_witness :
  exists l1 l2 st',
    get_assets toy_random (fun _ => 739000) 7 = Ok (l1, st') /\
    get_assets toy_random (fun _ => 739000 + 30) 7 = Ok (l2, st') /\
    Forall2 (shifted 30) l1 l2.
Proof.
  exact (assets_shift_with_today toy_random 739000 30 7 toy_choices_draws).
Defined.

(** X7.  Every [nominal_value] that [get_assets] generates has two
    decimals: rounding it to 2 decimals again returns it unchanged. *)
Theorem assets_two_decimals (R : Random) (clock : nat -> date) (st : rng R) :
  choices_draws R -> uniform_range R ->
  exists assets st',
    get_assets R clock st = Ok (assets, st') /\
    Forall (fun a => Float.round (nominal_value a) 2 = nominal_value a)
           assets.
Proof.
  intros Hc Hu.
  destruct (get_assets_ok R clock Hc st) as [assets [st' [E D]]].
  exists assets, st'. split; [exact E |].
  eapply Forall2_right; [| exact D].
  intros i a [_ [_ [_ [s Hv]]]]. rewrite Hv.
  destruct (Hu 1000 50000 s) as [L U]; [lia |].
  assert (Fu : is_finite (fst (uniform R 1000 50000 s)) = true).
  { destruct (fst (uniform R 1000 50000 s)) as [| [|] | |];
      try reflexivity; discriminate. }
  destruct (of_Z_exact 1000) as [F1 E1]; [lia |].
  destruct (of_Z_exact 50000) as [F2 E2]; [lia |].
  apply (leb_finite _ _ F1 Fu) in L. apply (leb_finite _ _ Fu F2) in U.
  rewrite E1 in L. rewrite E2 in U.
  apply (round_round_below _ 2 50000); [exact Fu | lia | cbn; lia |].
  split; [| exact U].
  apply Qle_trans with (inject_Z 1000); [| exact L].
  now rewrite <- (Zle_Qle 0).
Qed.

Lemma assets_two_decimals_witness :
  exists assets st',
    get_assets toy_random (fun _ => 739000) 7 = Ok (assets, st') /\
    Forall (fun a => Float.round (nominal_value a) 2 = nominal_value a)
           assets.
Proof.
  exact (assets_two_decimals toy_random (fun _ => 739000) 7
           toy_choices_draws toy_uniform_range).
Defined.

(** X8.  When every [nominal_value] lies between the integers [lo] and
    [hi], with [0 <= lo] and [len(assets) * hi] at most 2^53,
    [total_portfolio_value] lies between [len(assets) * lo] and
    [len(assets) * hi]: neither the additions nor the final rounding leave
    the interval. *)
Theorem total_between_bounds (lo hi : Z) (assets : list Asset) :
  0 <= lo <= hi -> Z.of_nat (List.length assets) * hi <= 2 ^ 53 ->
  Forall (fun a => in_range lo hi (nominal_value a)) assets ->
  exists total default_rate outstanding collection_rate,
    calculate_insights assets
    = Ok (insights total default_rate outstanding collection_rate) /\
    leb (of_Z (Z.of_nat (List.length assets) * lo)) total = true /\
    leb total (of_Z (Z.of_nat (List.length assets) * hi)) = true.
Proof.
  intros Hlo Hn Hr. rewrite calculate_insights_eq.
  do 4 eexists. split; [reflexivity |].
  now apply total_rounded_between.
Qed.

Lemma total_between_bounds_witness :
  exists total default_rate outstanding collection_rate,
    calculate_insights (scenario "A" "B" "C" 1 2 3)
    = Ok (insights total default_rate outstanding collection_rate) /\
    leb (of_Z (3 * 1000)) total = true /\
    leb total (of_Z (3 * 3000)) = true.
Proof.
  apply (total_between_bounds 1000 3000 (scenario "A" "B" "C" 1 2 3)).
  - lia.
  - cbn. lia.
  - repeat constructor.
Defined.

(** X9.  When every [nominal_value] lies between 0 and the integer [hi]
    and [len(assets) * hi * 100] is at most 2^51, the four values served
    have the decimals they were rounded to: rounding the two amounts to 2
    decimals and the two rates to 4 decimals again changes nothing. *)
Theorem insights_decimals (hi : Z) (assets : list Asset) :
  0 <= hi -> Z.of_nat (List.length assets) * hi * 100 <= 2 ^ 51 ->
  Forall (fun a => in_range 0 hi (nominal_value a)) assets ->
  exists total default_rate outstanding collection_rate,
    calculate_insights assets
    = Ok (insights total default_rate outstanding collection_rate) /\
    Float.round total 2 = total /\
    Float.round default_rate 4 = default_rate /\
    Float.round outstanding 2 = outstanding /\
    Float.round collection_rate 4 = collection_rate.
Proof.
  intros Hhi Hn Hr. rewrite calculate_insights_eq.
  do 4 eexists. split; [reflexivity |].
  split; [now apply (total_two_decimals hi) |].
  split; [apply default_rate_four_decimals |].
  split.
  - apply (total_two_decimals hi); [exact Hhi | | ].
    + pose proof (with_status_length active assets). nia.
    + now apply Forall_with_status.
  - destruct (total_between 0 hi assets) as [_ [Hf _]];
      [lia | lia | exact Hr |].
    apply collection_rate_four_decimals; [| exact Hf].
    eapply Forall_impl; [| exact Hr].
    intros a [Hv [L _]]. split; [exact Hv | exact L].
Qed.

Lemma insights_decimals_witness :
  exists total default_rate outstanding collection_rate,
    calculate_insights (scenario "A" "B" "C" 1 2 3)
    = Ok (insights total default_rate outstanding collection_rate) /\
    Float.round total 2 = total /\
    Float.round default_rate 4 = default_rate /\
    Float.round outstanding 2 = outstanding /\
    Float.round collection_rate 4 = collection_rate.
Proof.
  apply (insights_decimals 3000 (scenario "A" "B" "C" 1 2 3)).
  - lia.
  - cbn. lia.
  - repeat constructor.
Defined.

(** X10.  When no asset is defaulted, [default_rate] is 0.0, also on the
    empty list. *)
Theorem default_rate_none_defaulted (assets : list Asset) :
  Forall (fun a => status a <> defaulted) assets ->
  exists total outstanding collection_rate,
    calculate_insights assets
    = Ok (insights total pos_zero outstanding collection_rate).
Proof.
  intros H. rewrite calculate_insights_eq.
  assert (E : default_rate_of assets = pos_zero).
  { unfold default_rate_of. rewrite (with_status_none defaulted assets H).
    destruct assets as [| a l]; [reflexivity |].
    rewrite (round_Q_comp false _ 0%Q); [reflexivity |].
    unfold Qdiv. apply Qmult_0_l. }
  rewrite E. do 3 eexists. reflexivity.
Qed.

Lemma default_rate_none_defaulted_witness :
  exists total outstanding collection_rate,
    calculate_insights
      [mkAsset "asset-001" (of_Z 1000) active 1;
       mkAsset "asset-002" (of_Z 3000) paid 2]
    = Ok (insights total pos_zero outstanding collection_rate).
Proof.
  apply default_rate_none_defaulted.
  repeat constructor; discriminate.
Defined.

(** X11.  When the list is not empty and every asset is defaulted,
    [default_rate] is 1.0. *)
Theorem default_rate_all_defaulted (assets : list Asset) :
  assets <> [] ->
  Forall (fun a => status a = defaulted) assets ->
  exists total outstanding collection_rate,
    calculate_insights assets
    = Ok (insights total (of_Z 1) outstanding collection_rate).
Proof.
  intros Hne H. rewrite calculate_insights_eq.
  assert (E : default_rate_of assets = of_Z 1).
  { unfold default_rate_of. rewrite (with_status_all defaulted assets H).
    destruct assets as [| a l]; [contradiction |].
    rewrite (round_Q_comp false _ 1%Q); [vm_compute; reflexivity |].
    apply Qmult_inv_r. intros C. unfold Qeq in C. cbn in C. lia. }
  rewrite E. do 3 eexists. reflexivity.
Qed.

Lemma default_rate_all_defaulted_witness :
  exists total outstanding collection_rate,
    calculate_insights
      [mkAsset "asset-001" (of_Z 1000) defaulted 1;
       mkAsset "asset-002" (of_Z 3000) defaulted 2]
    = Ok (insights total (of_Z 1) outstanding collection_rate).
Proof.
  apply default_rate_all_defaulted.
  - discriminate.
  - repeat constructor.
Defined.

(** X12.  [default_rate] does not depend on the order of the assets: it is
    computed from two lengths. *)
Theorem default_rate_permutation (l1 l2 : list Asset) :
  Permutation l1 l2 ->
  exists default_rate total1 outstanding1 collection_rate1
         total2 outstanding2 collection_rate2,
    calculate_insights l1
    = Ok (insights total1 default_rate outstanding1 collection_rate1) /\
    calculate_insights l2
    = Ok (insights total2 default_rate outstanding2 collection_rate2).
Proof.
  intros P. rewrite !calculate_insights_eq.
  rewrite (default_rate_of_permutation l1 l2 P).
  do 7 eexists. split; reflexivity.
Qed.

Lemma default_rate_permutation_witness :
  exists default_rate total1 outstanding1 collection_rate1
         total2 outstanding2 collection_rate2,
    calculate_insights (scenario "A" "B" "C" 1 2 3)
    = Ok (insights total1 default_rate outstanding1 collection_rate1) /\
    calculate_insights (rev (scenario "A" "B" "C" 1 2 3))
    = Ok (insights total2 default_rate outstanding2 collection_rate2).
Proof.
  apply default_rate_permutation. apply Permutation_rev.
Defined.

(** X13.  A [nominal_value] that is not a number raises nothing: it makes
    [total_portfolio_value] and [collection_rate] not a number. *)
Theorem nan_propagates (assets : list Asset) :
  In S754_nan (map nominal_value assets) ->
  exists default_rate outstanding,
    calculate_insights assets
    = Ok (insights S754_nan default_rate outstanding S754_nan).
Proof.
  intros H. rewrite calculate_insights_eq.
  assert (T : Py.sum (values assets) = Py.PyFloat S754_nan).
  { destruct assets as [| a l]; [contradiction |].
    rewrite sum_values_cons. now rewrite fold_add_in_nan. }
  assert (C : collection_rate_of assets = S754_nan).
  { unfold collection_rate_of. rewrite T. cbn [Py.truthy is_zero negb].
    cbn [Py.to_float].
    now destruct (Py.to_float (Py.sum (values (with_status paid assets)))). }
  rewrite C, T. do 2 eexists. reflexivity.
Qed.

Lemma nan_propagates_witness :
  exists default_rate outstanding,
    calculate_insights
      [mkAsset "asset-001" (of_Z 1000) paid 1;
       mkAsset "asset-002" S754_nan defaulted 2]
    = Ok (insights S754_nan default_rate outstanding S754_nan).
Proof.
  apply nan_propagates. right. left. reflexivity.
Defined.

(** X14.  Appending an asset with a non-negative [nominal_value] to a list
    of such assets never lowers [total_portfolio_value]. *)
Theorem total_grows (assets : list Asset) (a : Asset) :
  Forall (fun a => nonneg (nominal_value a)) assets ->
  nonneg (nominal_value a) ->
  exists total default_rate outstanding collection_rate
         total' default_rate' outstanding' collection_rate',
    calculate_insights assets
    = Ok (insights total default_rate outstanding collection_rate) /\
    calculate_insights (assets ++ [a])
    = Ok (insights total' default_rate' outstanding' collection_rate') /\
    leb total total' = true.
Proof.
  intros H Ha. rewrite !calculate_insights_eq.
  do 8 eexists. split; [reflexivity |]. split; [reflexivity |].
  assert (H' : Forall (fun a => nonneg (nominal_value a)) (assets ++ [a])).
  { apply Forall_app. split; [exact H | now constructor]. }
  rewrite !round_sum by lia.
  apply round_mono; [now apply sum_values_nonneg
                    | now apply sum_values_nonneg | lia |].
  pose proof (sum_values_nonneg assets H) as G.
  rewrite !sum_values in *. rewrite map_app, fold_left_app.
  cbn [map fold_left]. now apply add_le_l.
Qed.

Lemma total_grows_witness :
  exists total default_rate outstanding collection_rate
         total' default_rate' outstanding' collection_rate',
    calculate_insights (scenario "A" "B" "C" 1 2 3)
    = Ok (insights total default_rate outstanding collection_rate) /\
    calculate_insights
      (scenario "A" "B" "C" 1 2 3 ++ [mkAsset "D" (of_Z 4000) active 4])
    = Ok (insights total' default_rate' outstanding' collection_rate') /\
    leb total total' = true.
Proof.
  apply total_grows; [exact scenario_nonneg | split; reflexivity].
Defined.

(** X15.  When no asset is paid and the un-rounded total is a number,
    [collection_rate] is a zero: the quotient 0 / total, or the guarded 0
    when the total is zero. *)
Theorem collection_rate_none_paid (assets : list Asset) :
  Forall (fun a => status a <> paid) assets ->
  is_nan (Py.to_float (Py.sum (values assets))) = false ->
  exists total default_rate outstanding collection_rate,
    calculate_insights assets
    = Ok (insights total default_rate outstanding collection_rate) /\
    is_zero collection_rate = true.
Proof.
  intros H Hn. rewrite calculate_insights_eq.
  do 4 eexists. split; [reflexivity |].
  unfold collection_rate_of. rewrite (with_status_none paid assets H).
  destruct (Py.truthy (Py.sum (values assets))) eqn:T; [| reflexivity].
  destruct (truthy_sum assets T) as [t [E Z]].
  rewrite E in *. cbn [Py.to_float] in *.
  now apply div_zero_by.
Qed.

Lemma collection_rate_none_paid_witness :
  exists total default_rate outstanding collection_rate,
    calculate_insights
      [mkAsset "asset-001" (of_Z 1000) active 1;
       mkAsset "asset-002" (of_Z 3000) defaulted 2]
    = Ok (insights total default_rate outstanding collection_rate) /\
    is_zero collection_rate = true.
Proof.
  apply collection_rate_none_paid.
  - repeat constructor; discriminate.
  - reflexivity.
Defined.

(** X16.  When every asset is paid and the un-rounded total is finite and
    not zero, [collection_rate] is 1.0. *)
Theorem collection_rate_all_paid (assets : list Asset) :
  Forall (fun a => status a = paid) assets ->
  is_finite (Py.to_float (Py.sum (values assets))) = true ->
  is_zero (Py.to_float (Py.sum (values assets))) = false ->
  exists total default_rate outstanding,
    calculate_insights assets
    = Ok (insights total default_rate outstanding (of_Z 1)).
Proof.
  intros H Hf Hz. rewrite calculate_insights_eq.
  assert (E : collection_rate_of assets = of_Z 1).
  { unfold collection_rate_of. rewrite (with_status_all paid assets H).
    destruct assets as [| a l]; [discriminate |].
    rewrite sum_values_cons in *. cbn [Py.truthy Py.to_float] in *.
    rewrite Hz. cbn [negb].
    destruct (fold_left Float.add (map nominal_value (a :: l)) pos_zero)
      as [s | s | | s m e]; try discriminate.
    apply div_self. }
  rewrite E. do 3 eexists. reflexivity.
Qed.

Lemma collection_rate_all_paid_witness :
  exists total default_rate outstanding,
    calculate_insights
      [mkAsset "asset-001" (of_Z 1000) paid 1;
       mkAsset "asset-002" (of_Z 3000) paid 2]
    = Ok (insights total default_rate outstanding (of_Z 1)).
Proof.
  apply collection_rate_all_paid.
  - repeat constructor.
  - reflexivity.
  - reflexivity.
Defined.

(** X17.  When every asset is active, [outstanding_debt] is
    [total_portfolio_value]. *)
Theorem outstanding_all_active (assets : list Asset) :
  Forall (fun a => status a = active) assets ->
  exists total default_rate collection_rate,
    calculate_insights assets
    = Ok (insights total default_rate total collection_rate).
Proof.
  intros H. rewrite calculate_insights_eq.
  rewrite (with_status_all active assets H).
  do 3 eexists. reflexivity.
Qed.

Lemma outstanding_all_active_witness :
  exists total default_rate collection_rate,
    calculate_insights
      [mkAsset "asset-001" (of_Z 1000) active 1;
       mkAsset "asset-002" (of_Z 3000) active 2]
    = Ok (insights total default_rate total collection_rate).
Proof.
  apply outstanding_all_active. repeat constructor.
Defined.

(** X18.  When no asset is active, [outstanding_debt] is 0.0: the sum of
    no value is the integer 0, which [round] leaves as it is. *)
Theorem outstanding_none_active (assets : list Asset) :
  Forall (fun a => status a <> active) assets ->
  exists total default_rate collection_rate,
    calculate_insights assets
    = Ok (insights total default_rate pos_zero collection_rate).
Proof.
  intros H. rewrite calculate_insights_eq.
  rewrite (with_status_none active assets H).
  do 3 eexists. reflexivity.
Qed.

Lemma outstanding_none_active_witness :
  exists total default_rate collection_rate,
    calculate_insights
      [mkAsset "asset-001" (of_Z 1000) paid 1;
       mkAsset "asset-002" (of_Z 3000) defaulted 2]
    = Ok (insights total default_rate pos_zero collection_rate).
Proof.
  apply outstanding_none_active. repeat constructor; discriminate.
Defined.

(** X19.  On the list [get_assets] generates, whether [sum] adds floats
    from left to right or with compensation, [calculate_insights] returns
    both rates in [0, 1] and an [outstanding_debt] between 0 and
    [total_portfolio_value]: 20 values between 1000 and 50000 add up to at
    most 1000000, below 2^20. *)
Theorem generated_insights_bounded (alg : Py.summation) (R : Random)
        (clock : nat -> date) (st : rng R) :
  choices_draws R -> uniform_range R ->
  exists assets st' total default_rate outstanding collection_rate,
    get_assets R clock st = Ok (assets, st') /\
    calculate_insights_on alg assets
    = Ok (insights total default_rate outstanding collection_rate) /\
    in_unit_interval default_rate = true /\
    in_unit_interval collection_rate = true /\
    leb pos_zero outstanding = true /\ leb outstanding total = true.
Proof.
  intros Hc Hu.
  destruct (served_portfolio R clock st Hc Hu) as [assets [st' [E [Hl Hr]]]].
  exists assets, st'. rewrite calculate_insights_on_eq. do 4 eexists.
  split; [exact E |]. split; [reflexivity |].
  assert (Hn : Z.of_nat (List.length assets) * 50000 <= 1048576)
    by (rewrite Hl; cbn; lia).
  assert (H1 : Forall (fun a => in_range 1 50000 (nominal_value a)) assets).
  { eapply Forall_impl; [| exact Hr].
    intros a Ha. apply (in_range_from_1 1000); [lia | exact Ha]. }
  split; [apply default_rate_unit |].
  split; [apply (collection_rate_on_unit alg 50000); [lia | exact Hn | exact H1] |].
  apply (outstanding_on_le_total alg 50000); [lia | exact Hn | exact H1].
Qed.

Lemma generated_insights_bounded_witness :
  exists assets st' total default_rate outstanding collection_rate,
    get_assets toy_random (fun _ => 739000) 7 = Ok (assets, st') /\
    calculate_insights_on Py.compensated assets
    = Ok (insights total default_rate outstanding collection_rate) /\
    in_unit_interval default_rate = true /\
    in_unit_interval collection_rate = true /\
    leb pos_zero outstanding = true /\ leb outstanding total = true.
Proof.
  exact (generated_insights_bounded Py.compensated toy_random
           (fun _ => 739000) 7 toy_choices_draws toy_uniform_range).
Defined.
